(** * Decentralized Organic Computing: privacy and network core

    A shallow embedding of the two TypeScript classes of the repository,
    [PrivacyManager] (policies, trust, consent, authenticated encryption)
    and [NetworkManager] (connection table, heartbeat, message dispatch),
    followed by the properties stated about them.

    Conventions of the embedding.
    - A JavaScript [Map] is a [gmap], a [Set] a [gset]; a [Buffer] is a
      [list byte]; a string is a [string] (its UTF-8 bytes).
    - A [number] is a [Z] where the program counts or tells the time
      (timestamps in milliseconds, retention in seconds, connection
      limits) and a [Q] where it is a real quantity (trust scores);
      [NaN] and the infinities are outside the model.
    - A method is a computation of the monad [Eff]: it receives the
      object's state and yields a completion (a returned value or a
      thrown error) together with the new state. An [async] method that
      throws is a promise that rejects with the error.
    - [this.emit(name, payload)] appends the event to the [emitted] log of
      the object; what listeners do with it is outside the program. The
      one event whose listeners the program depends on is [error]: an
      [EventEmitter] throws when it is asked to emit [error] and has no
      listener for it, so each object counts the listeners registered for
      [error] ([errorListeners], none after the constructor).
    - The Node.js runtime the classes call into (AES-256-GCM, the random
      source, [JSON.stringify] and [JSON.parse]) is an interface, class
      [Runtime]; the properties that depend on it assume its laws. *)

From Stdlib Require Import ZArith QArith Bool List String Ascii Lia.
From Stdlib Require Import Strings.Byte DecimalString.
From Stdlib Require Import Lqa.
From stdpp Require Import base option strings gmap.
Import ListNotations.

Set Warnings "-register-all,-clear-no-such-hyp".

Local Open Scope string_scope.
Local Open Scope Z_scope.

(** ** JavaScript completions, truthiness and a state monad with exceptions *)

Module Js.

Record Error := mkError { message : string }.

Inductive Completion (A : Type) : Type :=
| Normal (a : A)
| Throw (e : Error).
Arguments Normal {A} a.
Arguments Throw {A} e.

Definition Eff (S A : Type) : Type := S -> Completion A * S.

Definition ret {S A} (a : A) : Eff S A := fun s => (Normal a, s).

Definition throw {S A} (e : Error) : Eff S A := fun s => (Throw e, s).

Definition bind {S A B} (m : Eff S A) (k : A -> Eff S B) : Eff S B :=
  fun s =>
    match m s with
    | (Normal a, s') => k a s'
    | (Throw e, s') => (Throw e, s')
    end.

Definition get {S} : Eff S S := fun s => (Normal s, s).

Definition modify {S} (f : S -> S) : Eff S unit := fun s => (Normal tt, f s).

(** [try { body } catch (error) { handler }]: whatever [body] changed before
    it threw stays changed. *)
Definition try_catch {S A} (body : Eff S A) (handler : Error -> Eff S A)
  : Eff S A :=
  fun s =>
    match body s with
    | (Normal a, s') => (Normal a, s')
    | (Throw e, s') => handler e s'
    end.

(** A call of a runtime function that may throw. *)
Definition lift_option {S A} (e : Error) (o : option A) : Eff S A :=
  match o with
  | Some a => ret a
  | None => throw e
  end.

(** Truthiness of the values the program tests with [!x] and [x && ...]. *)
Definition truthy_string (s : string) : bool := negb (String.eqb s "").
Definition truthy_number (z : Z) : bool := negb (z =? 0).
(** An array is an object: it is truthy, also when it is empty. *)
Definition truthy_array {A} (l : list A) : bool := true.

(** [x < y] on numbers. *)
Definition Qlt_bool (x y : Q) : bool := negb (Qle_bool y x).

(** [Array.prototype.includes] on an array of strings. *)
Fixpoint includes (l : list string) (x : string) : bool :=
  match l with
  | [] => false
  | y :: l' => if String.eqb y x then true else includes l' x
  end.

(** The values the program treats as opaque ([any]): JSON trees. *)
Inductive JsValue : Type :=
| JNull
| JBool (b : bool)
| JNumber (q : Q)
| JString (s : string)
| JArray (l : list JsValue)
| JObject (fields : list (string * JsValue)).

End Js.

Import Js.

Declare Scope eff_scope.
Delimit Scope eff_scope with eff.
Notation "x <- m ;; k" := (bind m (fun x => k))
  (at level 100, m at next level, right associativity) : eff_scope.
Notation "m ;;; k" := (bind m (fun _ => k))
  (at level 100, right associativity) : eff_scope.

(** ** Hexadecimal encoding of buffers *)

Module Hex.

Definition hexDigit (n : N) : ascii :=
  match n with
  | 0%N => "0" | 1%N => "1" | 2%N => "2" | 3%N => "3"
  | 4%N => "4" | 5%N => "5" | 6%N => "6" | 7%N => "7"
  | 8%N => "8" | 9%N => "9" | 10%N => "a" | 11%N => "b"
  | 12%N => "c" | 13%N => "d" | 14%N => "e" | _ => "f"
  end%char.

Definition hexValue (c : ascii) : option N :=
  let n := N_of_ascii c in
  if ((48 <=? n) && (n <=? 57))%N then Some (n - 48)%N
  else if ((97 <=? n) && (n <=? 102))%N then Some (n - 87)%N
  else if ((65 <=? n) && (n <=? 70))%N then Some (n - 55)%N
  else None.

(** [buf.toString('hex')]: two lower-case digits per byte. *)
Fixpoint toString (buf : list byte) : string :=
  match buf with
  | [] => EmptyString
  | b :: buf' =>
      let n := Byte.to_N b in
      String (hexDigit (n / 16)) (String (hexDigit (n mod 16)) (toString buf'))
  end.

(** [Buffer.from(s, 'hex')]: decodes pairs of digits and stops at the first
    pair that is not hexadecimal; a trailing single character is dropped. *)
Fixpoint from (s : string) : list byte :=
  match s with
  | String c1 (String c2 rest) =>
      match hexValue c1, hexValue c2 with
      | Some h, Some l =>
          match Byte.of_N (16 * h + l) with
          | Some b => b :: from rest
          | None => []
          end
      | _, _ => []
      end
  | _ => []
  end.

(** A string handed to [cipher.update] or [decipher.update] with the input
    encoding ['hex'] is refused when its length is odd. *)
Definition validateEncoding (s : string) : bool := Nat.even (String.length s).
Arguments validateEncoding : simpl never.

End Hex.

(** ** The Node.js runtime the classes call into *)

Module Node.

(** [randomBytes i n] is the result of the [i]-th call of
    [crypto.randomBytes] in the process, asked for [n] bytes.
    [aes_256_gcm_encrypt key iv plaintext] is the ciphertext and the
    authentication tag a cipher made by [createCipheriv('aes-256-gcm', key,
    iv)] produces over [update], [final] and [getAuthTag];
    [aes_256_gcm_decrypt key iv ciphertext tag] is the plaintext a decipher
    made by [createDecipheriv('aes-256-gcm', key, iv)] yields over
    [setAuthTag], [update] and [final], or [None] when [createDecipheriv]
    or one of these calls throws, as [final] does when the tag does not
    authenticate the ciphertext.
    [JSON_stringify] and [JSON_parse] are [None] when the call throws (or,
    for [stringify], yields [undefined]). *)
Class Runtime := {
  randomBytes : nat -> nat -> list byte;
  aes_256_gcm_encrypt : list byte -> list byte -> list byte -> list byte * list byte;
  aes_256_gcm_decrypt : list byte -> list byte -> list byte -> list byte -> option (list byte);
  JSON_stringify : JsValue -> option string;
  JSON_parse : string -> option JsValue
}.

(** A value is JSON-serializable when [JSON.stringify] yields a text that
    [JSON.parse] reads back as the value. *)
Definition serializable `{Runtime} (v : JsValue) : Prop :=
  exists json, JSON_stringify v = Some json /\ JSON_parse json = Some v.

(** What AES-GCM guarantees: decryption inverts encryption under the same
    key and nonce, and a tag of the right length other than the one computed
    over the ciphertext is refused. *)
Class RuntimeLaws (RT : Runtime) : Prop := {
  gcm_decrypt_encrypt : forall key iv plaintext,
    aes_256_gcm_decrypt key iv
      (fst (aes_256_gcm_encrypt key iv plaintext))
      (snd (aes_256_gcm_encrypt key iv plaintext)) = Some plaintext;
  gcm_tag_mismatch : forall key iv plaintext tag',
    length tag' = length (snd (aes_256_gcm_encrypt key iv plaintext)) ->
    tag' <> snd (aes_256_gcm_encrypt key iv plaintext) ->
    aes_256_gcm_decrypt key iv (fst (aes_256_gcm_encrypt key iv plaintext)) tag' = None
}.

End Node.

Import Node.

(** ** PrivacyManager *)

Module Privacy.

Record SharingPolicy := {
  allowedNodes : list string;
  requireConsent : bool;
  minimumTrust : Q
}.

Record PrivacyPolicy := {
  dataType : string;
  allowedOperations : list string;
  retentionPeriod : Z;
  sharingPolicy : SharingPolicy
}.

Record EncryptedData := {
  data : string;
  iv : string;
  tag : string
}.

(** The events the manager emits, with their payloads. *)
Inductive Event : Type :=
| error (e : Error)
| policyUpdated (dataType : string) (policy : PrivacyPolicy)
| consentGranted (grantor grantee dataType : string)
| consentRevoked (grantor grantee dataType : string)
| trustScoreUpdated (nodeId : string) (score : Q).

(** The fields of the class, the log of emitted events, the number of
    draws made from the random source so far, and the number of listeners
    registered for the [error] event. *)
Record PrivacyManager := {
  policies : gmap string PrivacyPolicy;
  encryptionKey : list byte;
  trustScores : gmap string Q;
  consentRegistry : gmap string (gset string);
  emitted : list Event;
  draws : nat;
  errorListeners : nat
}.

Definition set_policies (f : gmap string PrivacyPolicy -> gmap string PrivacyPolicy)
    (st : PrivacyManager) : PrivacyManager :=
  {| policies := f (policies st); encryptionKey := encryptionKey st;
     trustScores := trustScores st; consentRegistry := consentRegistry st;
     emitted := emitted st; draws := draws st;
     errorListeners := errorListeners st |}.

Definition set_trustScores (f : gmap string Q -> gmap string Q)
    (st : PrivacyManager) : PrivacyManager :=
  {| policies := policies st; encryptionKey := encryptionKey st;
     trustScores := f (trustScores st); consentRegistry := consentRegistry st;
     emitted := emitted st; draws := draws st;
     errorListeners := errorListeners st |}.

Definition set_consentRegistry
    (f : gmap string (gset string) -> gmap string (gset string))
    (st : PrivacyManager) : PrivacyManager :=
  {| policies := policies st; encryptionKey := encryptionKey st;
     trustScores := trustScores st; consentRegistry := f (consentRegistry st);
     emitted := emitted st; draws := draws st;
     errorListeners := errorListeners st |}.

(** A listener for [error] registered with [on], and all listeners removed
    with [removeAllListeners] (both inherited from [EventEmitter]). *)
Definition on_error : Eff PrivacyManager unit :=
  modify (fun st =>
    {| policies := policies st; encryptionKey := encryptionKey st;
       trustScores := trustScores st; consentRegistry := consentRegistry st;
       emitted := emitted st; draws := draws st;
       errorListeners := S (errorListeners st) |}).

Definition removeAllListeners : Eff PrivacyManager unit :=
  modify (fun st =>
    {| policies := policies st; encryptionKey := encryptionKey st;
       trustScores := trustScores st; consentRegistry := consentRegistry st;
       emitted := emitted st; draws := draws st;
       errorListeners := 0%nat |}).

(** The event reaches the listeners. *)
Definition deliver (ev : Event) : Eff PrivacyManager unit :=
  modify (fun st =>
    {| policies := policies st; encryptionKey := encryptionKey st;
       trustScores := trustScores st; consentRegistry := consentRegistry st;
       emitted := emitted st ++ [ev]; draws := draws st;
       errorListeners := errorListeners st |}).

(** [this.emit(name, payload)]: an [error] event nobody listens for is not
    delivered; [emit] throws its payload, which here is always an [Error]. *)
Definition emit (ev : Event) : Eff PrivacyManager unit :=
  fun st =>
    match ev, errorListeners st with
    | error e, O => (Throw e, st)
    | _, _ => deliver ev st
    end.

Section WithRuntime.
Context {RT : Runtime}.

(** [randomBytes(n)]: the next draw of the process. *)
Definition draw (n : nat) : Eff PrivacyManager (list byte) :=
  fun st =>
    (Normal (randomBytes (draws st) n),
     {| policies := policies st; encryptionKey := encryptionKey st;
        trustScores := trustScores st; consentRegistry := consentRegistry st;
        emitted := emitted st; draws := S (draws st);
        errorListeners := errorListeners st |}).

(** [new PrivacyManager()] in a process that has made [n] draws. *)
Definition constructor (n : nat) : PrivacyManager :=
  {| policies := ∅; encryptionKey := randomBytes n 32;
     trustScores := ∅; consentRegistry := ∅;
     emitted := []; draws := S n; errorListeners := 0%nat |}.

Definition encryptData (data : JsValue) (dataType : string)
  : Eff PrivacyManager (option EncryptedData) :=
  (st <- get ;;
   match policies st !! dataType with
   | None =>
       emit (error (mkError ("No privacy policy found for data type: " ++ dataType))) ;;;
       ret None
   | Some policy =>
       try_catch
         (iv <- draw 16 ;;
          jsonData <- lift_option (mkError "The data argument must be of type string")
                        (JSON_stringify data) ;;
          let sealed :=
            aes_256_gcm_encrypt (encryptionKey st) iv (list_byte_of_string jsonData) in
          ret (Some {| data := Hex.toString (fst sealed);
                       iv := Hex.toString iv;
                       tag := Hex.toString (snd sealed) |}))
         (fun e => emit (error e) ;;; ret None)
   end)%eff.

(** The error [decipher.update(data, 'hex', 'utf8')] throws for a string of
    odd length. *)
Definition invalidEncoding (data : string) : Error :=
  mkError ("The argument 'encoding' is invalid for data of length "
           ++ NilEmpty.string_of_uint (Nat.to_uint (String.length data))
           ++ ". Received 'hex'").

(** The result [null] is [JNull]. *)
Definition decryptData (encryptedData : EncryptedData) : Eff PrivacyManager JsValue :=
  (try_catch
     (st <- get ;;
      (if Hex.validateEncoding (data encryptedData) then ret tt
       else throw (invalidEncoding (data encryptedData))) ;;;
      decrypted <- lift_option
                     (mkError "Unsupported state or unable to authenticate data")
                     (aes_256_gcm_decrypt (encryptionKey st)
                        (Hex.from (iv encryptedData))
                        (Hex.from (data encryptedData))
                        (Hex.from (tag encryptedData))) ;;
      lift_option (mkError "Unexpected token in JSON")
        (JSON_parse (string_of_list_byte decrypted)))
     (fun e => emit (error e) ;;; ret JNull))%eff.

End WithRuntime.

Definition validatePolicy (policy : PrivacyPolicy) : Eff PrivacyManager bool :=
  if negb (truthy_string (dataType policy))
     || negb (truthy_array (allowedOperations policy))
  then throw (mkError "Invalid policy: missing required fields")
  else if retentionPeriod policy <=? 0
  then throw (mkError "Invalid policy: retention period must be positive")
  else ret true.

Definition setPolicy (dataType : string) (policy : PrivacyPolicy)
  : Eff PrivacyManager unit :=
  (validatePolicy policy ;;;
   modify (set_policies (insert dataType policy)) ;;;
   emit (policyUpdated dataType policy))%eff.

Definition consentKey (nodeId dataType : string) : string :=
  nodeId ++ ":" ++ dataType.

(** [this.consentRegistry.get(consentKey)?.size > 0 || false] *)
Definition checkConsent (st : PrivacyManager) (nodeId dataType : string) : bool :=
  match consentRegistry st !! consentKey nodeId dataType with
  | Some consents => (0 <? size consents)%nat
  | None => false
  end.

(** [this.trustScores.get(nodeId) || 0] *)
Definition trustScoreOf (st : PrivacyManager) (nodeId : string) : Q :=
  match trustScores st !! nodeId with
  | Some score => if Qeq_bool score 0 then 0%Q else score
  | None => 0%Q
  end.

Definition checkPermission (nodeId dataType operation : string)
  : Eff PrivacyManager bool :=
  (st <- get ;;
   match policies st !! dataType with
   | None => ret false
   | Some policy =>
       let trustScore := trustScoreOf st nodeId in
       let hasConsent := checkConsent st nodeId dataType in
       ret (includes (allowedOperations policy) operation
            && includes (allowedNodes (sharingPolicy policy)) nodeId
            && Qle_bool (minimumTrust (sharingPolicy policy)) trustScore
            && (negb (requireConsent (sharingPolicy policy)) || hasConsent))
   end)%eff.

Definition grantConsent (grantor grantee dataType : string)
  : Eff PrivacyManager unit :=
  (let consentKey := consentKey grantor dataType in
   st <- get ;;
   (if bool_decide (is_Some (consentRegistry st !! consentKey)) then ret tt
    else modify (set_consentRegistry (insert consentKey ∅))) ;;;
   modify (set_consentRegistry (alter (fun consents => consents ∪ {[grantee]}) consentKey)) ;;;
   emit (consentGranted grantor grantee dataType))%eff.

Definition revokeConsent (grantor grantee dataType : string)
  : Eff PrivacyManager unit :=
  (let consentKey := consentKey grantor dataType in
   modify (set_consentRegistry (alter (fun consents => consents ∖ {[grantee]}) consentKey)) ;;;
   emit (consentRevoked grantor grantee dataType))%eff.

Definition updateTrustScore (nodeId : string) (score : Q)
  : Eff PrivacyManager unit :=
  (if Qlt_bool score 0 || Qlt_bool 1 score
   then throw (mkError "Trust score must be between 0 and 1")
   else
     modify (set_trustScores (insert nodeId score)) ;;;
     emit (trustScoreUpdated nodeId score))%eff.

(** *** The placeholder proofs and the metrics *)

Record PublicInputs := {
  statement : string
}.

Record ZKProof := {
  proof : string;
  publicInputs : PublicInputs;
  verification : string
}.

Record PrivacyMetrics := {
  policyCount : nat;
  averageTrustScore : Q;
  activeConsents : nat;
  encryptedDataTypes : list string
}.

(** The scores and the consent sets are visited in the order [map_to_list]
    lists them (the program visits them in insertion order). *)
Definition calculateAverageTrust (st : PrivacyManager) : Q :=
  if (size (trustScores st) =? 0)%nat then 0%Q
  else
    let sum := fold_left Qplus (map_to_list (trustScores st)).*2 0%Q in
    (sum / inject_Z (Z.of_nat (size (trustScores st))))%Q.

Definition countActiveConsents (st : PrivacyManager) : nat :=
  fold_left (fun count consents => (count + size consents)%nat)
    (map_to_list (consentRegistry st)).*2 0%nat.

Definition getPrivacyMetrics (st : PrivacyManager) : PrivacyMetrics :=
  {| policyCount := size (policies st);
     averageTrustScore := calculateAverageTrust st;
     activeConsents := countActiveConsents st;
     encryptedDataTypes := (map_to_list (policies st)).*1 |}.

Section WithHash.
Context {RT : Runtime}.
(** [createHash('sha256').update(text).digest('hex')] *)
Variable sha256 : string -> string.

(** [update] throws when [JSON.stringify] yields no text. *)
Definition generateZKProof (data : JsValue) (statement : string)
  : Eff PrivacyManager ZKProof :=
  (json <- lift_option (mkError "The data argument must be of type string")
             (JSON_stringify data) ;;
   let dataHash := sha256 json in
   ret {| proof := dataHash;
          publicInputs := {| statement := statement |};
          verification := sha256 (dataHash ++ statement) |})%eff.

Definition verifyZKProof (zkProof : ZKProof) : bool :=
  let verification' := sha256 (proof zkProof ++ statement (publicInputs zkProof)) in
  String.eqb verification' (verification zkProof).

(** *** The manager under its callers: the calls of its public methods *)

Inductive Call : Type :=
| CallEncryptData (data : JsValue) (dataType : string)
| CallDecryptData (encryptedData : EncryptedData)
| CallGenerateZKProof (data : JsValue) (statement : string)
| CallSetPolicy (dataType : string) (policy : PrivacyPolicy)
| CallCheckPermission (nodeId dataType operation : string)
| CallGrantConsent (grantor grantee dataType : string)
| CallRevokeConsent (grantor grantee dataType : string)
| CallUpdateTrustScore (nodeId : string) (score : Q)
| CallOnError
| CallRemoveAllListeners.

Definition perform (c : Call) : Eff PrivacyManager unit :=
  match c with
  | CallEncryptData data dataType => (encryptData data dataType ;;; ret tt)%eff
  | CallDecryptData encryptedData => (decryptData encryptedData ;;; ret tt)%eff
  | CallGenerateZKProof data statement =>
      (generateZKProof data statement ;;; ret tt)%eff
  | CallSetPolicy dataType policy => setPolicy dataType policy
  | CallCheckPermission nodeId dataType operation =>
      (checkPermission nodeId dataType operation ;;; ret tt)%eff
  | CallGrantConsent grantor grantee dataType =>
      grantConsent grantor grantee dataType
  | CallRevokeConsent grantor grantee dataType =>
      revokeConsent grantor grantee dataType
  | CallUpdateTrustScore nodeId score => updateTrustScore nodeId score
  | CallOnError => on_error
  | CallRemoveAllListeners => removeAllListeners
  end.

(** The states of a manager constructed after [n] draws of the process. *)
Inductive reachable (n : nat) : PrivacyManager -> Prop :=
| reachable_constructor : reachable n (constructor n)
| reachable_perform st c : reachable n st -> reachable n (snd (perform c st)).

Definition run (calls : list Call) (st : PrivacyManager) : PrivacyManager :=
  fold_left (fun st c => snd (perform c st)) calls st.

End WithHash.

End Privacy.

(** ** NetworkManager *)

Module Network.

Inductive MessageType : Type :=
| RESOURCE_REQUEST
| RESOURCE_RESPONSE
| DATA_SHARE
| PATTERN_UPDATE
| CONSENSUS_REQUEST
| NODE_DISCOVERY.

(** The string each member of the enum stands for at run time. *)
Definition MessageType_value (t : MessageType) : string :=
  match t with
  | RESOURCE_REQUEST => "RESOURCE_REQUEST"
  | RESOURCE_RESPONSE => "RESOURCE_RESPONSE"
  | DATA_SHARE => "DATA_SHARE"
  | PATTERN_UPDATE => "PATTERN_UPDATE"
  | CONSENSUS_REQUEST => "CONSENSUS_REQUEST"
  | NODE_DISCOVERY => "NODE_DISCOVERY"
  end.

(** A message as it exists at run time: [type] is whatever string the peer
    sent, an absent string field reads as the empty string (both are falsy),
    and [timestamp] may be absent. *)
Record Message := {
  id : string;
  type : string;
  sender : string;
  recipient : string;
  payload : JsValue;
  timestamp : option Z;
  signature : option string
}.

Record NetworkConfig := {
  port : Z;
  maxConnections : Z;
  discoveryInterval : Z;
  heartbeatInterval : Z
}.

Inductive ReadyState : Type := CONNECTING | OPEN | CLOSING | CLOSED.

Definition ReadyState_eqb (a b : ReadyState) : bool :=
  match a, b with
  | CONNECTING, CONNECTING | OPEN, OPEN | CLOSING, CLOSING | CLOSED, CLOSED => true
  | _, _ => false
  end.

(** A transport object of the [ws] library as the manager sees it: its
    state, whether [send] currently throws, and what was handed to it. *)
Record WebSocket := {
  readyState : ReadyState;
  sendFault : option Error;
  outbox : list string;
  pings : nat;
  closeCalls : list (option (Z * string))
}.

Inductive ServerState : Type := Listening | Closing | Closed.

Inductive ErrorInfo : Type :=
| ServerFault (e : Error)
| SocketFault (nodeId : string) (e : Error)
| MessageFault (nodeId : string) (e : Error) (data : string)
| SendFault (message : Message) (e : Error).

Inductive Event : Type :=
| error (info : ErrorInfo)
| nodeConnected (nodeId : string)
| nodeDisconnected (nodeId : string)
| resourceRequest (message : Message)
| dataShare (message : Message)
| patternUpdate (message : Message)
| consensusRequest (message : Message)
| nodeDiscovery (message : Message)
| unknownMessageType (message : Message)
| messageReceived (nodeId : string) (message : Message)
| messageSent (message : Message)
| messageBroadcast (message : Message)
| serverClosed.

(** The fields of the class ([server], [connections], [config],
    [heartbeatIntervals]) and the objects they refer to: the transport
    objects by handle ([sockets]), the handlers registered on them
    ([listeners]: the socket and the node id the handlers close over), the
    running interval timers with what their callback closes over ([timers]),
    the log of emitted events and the number of listeners registered on the
    manager for the [error] event. A socket handle absent from [sockets] is
    a closed transport. *)
Record NetworkManager := {
  server : ServerState;
  connections : gmap string nat;
  config : NetworkConfig;
  heartbeatIntervals : gmap string nat;
  sockets : gmap nat WebSocket;
  listeners : list (nat * string);
  timers : gmap nat (string * nat);
  nextTimer : nat;
  emitted : list Event;
  errorListeners : nat
}.

Definition with_server (x : ServerState) (st : NetworkManager) :=
  {| server := x; connections := connections st; config := config st;
     heartbeatIntervals := heartbeatIntervals st; sockets := sockets st;
     listeners := listeners st; timers := timers st;
     nextTimer := nextTimer st; emitted := emitted st;
     errorListeners := errorListeners st |}.

Definition with_connections (x : gmap string nat) (st : NetworkManager) :=
  {| server := server st; connections := x; config := config st;
     heartbeatIntervals := heartbeatIntervals st; sockets := sockets st;
     listeners := listeners st; timers := timers st;
     nextTimer := nextTimer st; emitted := emitted st;
     errorListeners := errorListeners st |}.

Definition with_heartbeatIntervals (x : gmap string nat) (st : NetworkManager) :=
  {| server := server st; connections := connections st; config := config st;
     heartbeatIntervals := x; sockets := sockets st;
     listeners := listeners st; timers := timers st;
     nextTimer := nextTimer st; emitted := emitted st;
     errorListeners := errorListeners st |}.

Definition with_sockets (x : gmap nat WebSocket) (st : NetworkManager) :=
  {| server := server st; connections := connections st; config := config st;
     heartbeatIntervals := heartbeatIntervals st; sockets := x;
     listeners := listeners st; timers := timers st;
     nextTimer := nextTimer st; emitted := emitted st;
     errorListeners := errorListeners st |}.

Definition with_listeners (x : list (nat * string)) (st : NetworkManager) :=
  {| server := server st; connections := connections st; config := config st;
     heartbeatIntervals := heartbeatIntervals st; sockets := sockets st;
     listeners := x; timers := timers st;
     nextTimer := nextTimer st; emitted := emitted st;
     errorListeners := errorListeners st |}.

Definition with_timers (x : gmap nat (string * nat)) (n : nat) (st : NetworkManager) :=
  {| server := server st; connections := connections st; config := config st;
     heartbeatIntervals := heartbeatIntervals st; sockets := sockets st;
     listeners := listeners st; timers := x;
     nextTimer := n; emitted := emitted st;
     errorListeners := errorListeners st |}.

Definition with_emitted (x : list Event) (st : NetworkManager) :=
  {| server := server st; connections := connections st; config := config st;
     heartbeatIntervals := heartbeatIntervals st; sockets := sockets st;
     listeners := listeners st; timers := timers st;
     nextTimer := nextTimer st; emitted := x;
     errorListeners := errorListeners st |}.

Definition with_errorListeners (x : nat) (st : NetworkManager) :=
  {| server := server st; connections := connections st; config := config st;
     heartbeatIntervals := heartbeatIntervals st; sockets := sockets st;
     listeners := listeners st; timers := timers st;
     nextTimer := nextTimer st; emitted := emitted st;
     errorListeners := x |}.

(** A listener for [error] registered with [on], and all listeners removed
    with [removeAllListeners] (both inherited from [EventEmitter]). *)
Definition on_error : Eff NetworkManager unit :=
  modify (fun st => with_errorListeners (S (errorListeners st)) st).

Definition removeAllListeners : Eff NetworkManager unit :=
  modify (with_errorListeners 0%nat).

(** What [emit] throws for an [error] event nobody listens for: the payload
    when it is an [Error], as the server's is, and otherwise a new [Error]
    whose message starts with "Unhandled error." (the rendering of the
    payload that follows it is left out). *)
Definition unhandled (info : ErrorInfo) : Error :=
  match info with
  | ServerFault e => e
  | _ => mkError "Unhandled error."
  end.

(** The event reaches the listeners. *)
Definition deliver (ev : Event) : Eff NetworkManager unit :=
  modify (fun st => with_emitted (emitted st ++ [ev]) st).

(** [this.emit(name, payload)]: an [error] event nobody listens for is not
    delivered, and [emit] throws. *)
Definition emit (ev : Event) : Eff NetworkManager unit :=
  fun st =>
    match ev, errorListeners st with
    | error info, O => (Throw (unhandled info), st)
    | _, _ => deliver ev st
    end.

(** [list.forEach(f)] *)
Fixpoint forEach {A} (f : A -> Eff NetworkManager unit) (l : list A)
  : Eff NetworkManager unit :=
  match l with
  | [] => ret tt
  | x :: l' => (f x ;;; forEach f l')%eff
  end.

(** *** The transport objects *)

Definition readyStateOf (st : NetworkManager) (ws : nat) : ReadyState :=
  match sockets st !! ws with
  | Some s => readyState s
  | None => CLOSED
  end.

(** [ws.close(code, reason)]: an open or connecting transport starts
    closing; the call is recorded on the transport. *)
Definition ws_close (ws : nat) (why : option (Z * string)) : Eff NetworkManager unit :=
  modify (fun st =>
    with_sockets
      (alter (fun s =>
         {| readyState := match readyState s with
                          | CONNECTING | OPEN => CLOSING
                          | r => r
                          end;
            sendFault := sendFault s; outbox := outbox s; pings := pings s;
            closeCalls := closeCalls s ++ [why] |}) ws (sockets st)) st).

(** [ws.send(data)]: hands the frame to an open transport, and throws when
    the transport is faulty. On a transport that is not open the call fails
    too; the methods below only send on open transports. *)
Definition ws_send (ws : nat) (frame : string) : Eff NetworkManager unit :=
  (st <- get ;;
   match sockets st !! ws with
   | Some s =>
       match readyState s, sendFault s with
       | OPEN, None =>
           modify (with_sockets
             (<[ws := {| readyState := readyState s; sendFault := sendFault s;
                         outbox := outbox s ++ [frame]; pings := pings s;
                         closeCalls := closeCalls s |}]> (sockets st)))
       | OPEN, Some e => throw e
       | _, _ => throw (mkError "WebSocket is not open")
       end
   | None => throw (mkError "WebSocket is not open")
   end)%eff.

(** [ws.ping()] *)
Definition ws_ping (ws : nat) : Eff NetworkManager unit :=
  modify (fun st =>
    with_sockets
      (alter (fun s =>
         {| readyState := readyState s; sendFault := sendFault s;
            outbox := outbox s; pings := S (pings s);
            closeCalls := closeCalls s |}) ws (sockets st)) st).

(** [ws.on('message', ...)], [ws.on('close', ...)], [ws.on('error', ...)]:
    the three handlers of [handleConnection] close over the same [nodeId]. *)
Definition ws_on (ws : nat) (nodeId : string) : Eff NetworkManager unit :=
  modify (fun st => with_listeners (listeners st ++ [(ws, nodeId)]) st).

(** *** The methods *)

(** [new NetworkManager(config)] *)
Definition constructor (config : NetworkConfig) : NetworkManager :=
  {| server := Listening; connections := ∅; config := config;
     heartbeatIntervals := ∅; sockets := ∅; listeners := [];
     timers := ∅; nextTimer := 0%nat; emitted := [];
     errorListeners := 0%nat |}.

Definition setupHeartbeat (nodeId : string) (ws : nat) : Eff NetworkManager unit :=
  (st <- get ;;
   let interval := nextTimer st in
   modify (with_timers (<[interval := (nodeId, ws)]> (timers st)) (S interval)) ;;;
   modify (fun st => with_heartbeatIntervals (<[nodeId := interval]> (heartbeatIntervals st)) st))%eff.

Definition handleDisconnection (nodeId : string) : Eff NetworkManager unit :=
  (st <- get ;;
   match heartbeatIntervals st !! nodeId with
   | Some interval =>
       modify (fun st => with_timers (delete interval (timers st)) (nextTimer st) st) ;;;
       modify (fun st => with_heartbeatIntervals (delete nodeId (heartbeatIntervals st)) st)
   | None => ret tt
   end ;;;
   modify (fun st => with_connections (delete nodeId (connections st)) st) ;;;
   emit (nodeDisconnected nodeId))%eff.

Definition handleConnection (nodeId : string) (ws : nat) : Eff NetworkManager unit :=
  (st <- get ;;
   if maxConnections (config st) <=? Z.of_nat (size (connections st))
   then ws_close ws (Some (1013, "Maximum connections reached"))
   else
     modify (with_connections (<[nodeId := ws]> (connections st))) ;;;
     setupHeartbeat nodeId ws ;;;
     ws_on ws nodeId ;;;
     emit (nodeConnected nodeId))%eff.

(** The callback of the interval [setupHeartbeat] starts. *)
Definition heartbeat (nodeId : string) (ws : nat) : Eff NetworkManager unit :=
  (st <- get ;;
   if ReadyState_eqb (readyStateOf st ws) OPEN
   then ws_ping ws
   else handleDisconnection nodeId)%eff.

(** The result is the truthiness of the expression the method returns;
    [now] is [Date.now()]. *)
Definition validateMessage (message : Message) (now : Z) : bool :=
  truthy_string (id message)
  && truthy_string (type message)
  && truthy_string (sender message)
  && truthy_string (recipient message)
  && match timestamp message with
     | Some t => truthy_number t && (t <=? now)
     | None => false
     end.

Definition handleResourceRequest (message : Message) := emit (resourceRequest message).
Definition handleDataShare (message : Message) := emit (dataShare message).
Definition handlePatternUpdate (message : Message) := emit (patternUpdate message).
Definition handleConsensusRequest (message : Message) := emit (consensusRequest message).
Definition handleNodeDiscovery (message : Message) := emit (nodeDiscovery message).

Section WithJSON.
(** [JSON.parse] read at type [Message] and [JSON.stringify] of a message;
    [None] when the call throws. *)
Variable JSON_parse : string -> option Message.
Variable JSON_stringify : Message -> option string.

Definition handleMessage (nodeId : string) (data : string) (now : Z)
  : Eff NetworkManager unit :=
  (try_catch
     (message <- lift_option (mkError "Unexpected token in JSON") (JSON_parse data) ;;
      (if negb (validateMessage message now)
       then throw (mkError "Invalid message format")
       else ret tt) ;;;
      (if String.eqb (type message) (MessageType_value RESOURCE_REQUEST)
       then handleResourceRequest message
       else if String.eqb (type message) (MessageType_value DATA_SHARE)
       then handleDataShare message
       else if String.eqb (type message) (MessageType_value PATTERN_UPDATE)
       then handlePatternUpdate message
       else if String.eqb (type message) (MessageType_value CONSENSUS_REQUEST)
       then handleConsensusRequest message
       else if String.eqb (type message) (MessageType_value NODE_DISCOVERY)
       then handleNodeDiscovery message
       else emit (unknownMessageType message)) ;;;
      emit (messageReceived nodeId message))
     (fun e => emit (error (MessageFault nodeId e data))))%eff.

Definition sendMessage (message : Message) : Eff NetworkManager bool :=
  (st <- get ;;
   match connections st !! recipient message with
   | None => ret false
   | Some connection =>
       if negb (ReadyState_eqb (readyStateOf st connection) OPEN)
       then ret false
       else
         try_catch
           (frame <- lift_option (mkError "Converting circular structure to JSON")
                       (JSON_stringify message) ;;
            ws_send connection frame ;;;
            emit (messageSent message) ;;;
            ret true)
           (fun e => emit (error (SendFault message e)) ;;; ret false)
   end)%eff.

(** [{ ...message, recipient: nodeId }] *)
Definition with_recipient (message : Message) (nodeId : string) : Message :=
  {| id := id message; type := type message; sender := sender message;
     recipient := nodeId; payload := payload message;
     timestamp := timestamp message; signature := signature message |}.

(** The entries are visited in the order [map_to_list] lists them (the
    program visits them in insertion order). *)
Definition broadcast (message : Message) : Eff NetworkManager unit :=
  (st <- get ;;
   forEach (fun '(nodeId, connection) =>
      st' <- get ;;
      if ReadyState_eqb (readyStateOf st' connection) OPEN
      then
        frame <- lift_option (mkError "Converting circular structure to JSON")
                   (JSON_stringify (with_recipient message nodeId)) ;;
        ws_send connection frame
      else ret tt)
     (map_to_list (connections st)) ;;;
   emit (messageBroadcast message))%eff.

End WithJSON.

Record NetworkStats := {
  connectedNodes : nat;
  maxConnections' : Z;
  activeConnections : list string
}.

Definition getNetworkStats (st : NetworkManager) : NetworkStats :=
  {| connectedNodes := size (connections st);
     maxConnections' := maxConnections (config st);
     activeConnections := (map_to_list (connections st)).*1 |}.

(** [server.close(callback)] stops the server; the callback runs later, see
    [ServerClosedCallback] below. *)
Definition disconnect : Eff NetworkManager unit :=
  (st <- get ;;
   forEach (fun '(nodeId, connection) =>
      ws_close connection None ;;;
      handleDisconnection nodeId)
     (map_to_list (connections st)) ;;;
   modify (with_server Closing))%eff.

(** *** The manager as a reactive system

    What can happen to a manager: the events of the server and of the
    transports its handlers are registered on, the ticks of its timers,
    changes of a transport made by the peer or the operating system, and
    calls of its public methods, those it inherits from [EventEmitter]
    included. *)

Inductive Input : Type :=
| ServerConnection (nodeId : string) (ws : nat)
| ServerError (e : Error)
| SocketMessage (ws : nat) (data : string) (now : Z)
| SocketClose (ws : nat)
| SocketError (ws : nat) (e : Error)
| TimerTick (interval : nat)
| TransportChange (ws : nat) (s : WebSocket)
| ServerClosedCallback
| CallSendMessage (message : Message)
| CallBroadcast (message : Message)
| CallDisconnect
| CallOnError
| CallRemoveAllListeners.

Section Reactive.
Variable JSON_parse : string -> option Message.
Variable JSON_stringify : Message -> option string.

(** The handlers registered on transport [ws], run in registration order. *)
Definition dispatch (ws : nat) (handler : string -> Eff NetworkManager unit)
  : Eff NetworkManager unit :=
  (st <- get ;;
   forEach (fun '(ws', nodeId) => if Nat.eqb ws' ws then handler nodeId else ret tt)
     (listeners st))%eff.

Definition react (i : Input) : Eff NetworkManager unit :=
  match i with
  | ServerConnection nodeId ws =>
      (st <- get ;;
       match server st with
       | Listening => handleConnection nodeId ws
       | _ => ret tt
       end)%eff
  | ServerError e => emit (error (ServerFault e))
  | SocketMessage ws data now =>
      dispatch ws (fun nodeId => handleMessage JSON_parse nodeId data now)
  | SocketClose ws =>
      (modify (fun st => with_sockets
         (alter (fun s =>
            {| readyState := CLOSED; sendFault := sendFault s;
               outbox := outbox s; pings := pings s;
               closeCalls := closeCalls s |}) ws (sockets st)) st) ;;;
       dispatch ws handleDisconnection)%eff
  | SocketError ws e =>
      dispatch ws (fun nodeId => emit (error (SocketFault nodeId e)))
  | TimerTick interval =>
      (st <- get ;;
       match timers st !! interval with
       | Some (nodeId, ws) => heartbeat nodeId ws
       | None => ret tt
       end)%eff
  | TransportChange ws s =>
      modify (fun st => with_sockets (<[ws := s]> (sockets st)) st)
  | ServerClosedCallback =>
      (st <- get ;;
       match server st with
       | Closing => modify (with_server Closed) ;;; emit serverClosed
       | _ => ret tt
       end)%eff
  | CallSendMessage message =>
      (sendMessage JSON_stringify message ;;; ret tt)%eff
  | CallBroadcast message => broadcast JSON_stringify message
  | CallDisconnect => disconnect
  | CallOnError => on_error
  | CallRemoveAllListeners => removeAllListeners
  end.

(** The states a manager built with [config] can be in. *)
Inductive reachable (config : NetworkConfig) : NetworkManager -> Prop :=
| reachable_constructor : reachable config (constructor config)
| reachable_react st i :
    reachable config st -> reachable config (snd (react i st)).

(** The state after a sequence of inputs. *)
Definition run (inputs : list Input) (st : NetworkManager) : NetworkManager :=
  fold_left (fun st i => snd (react i st)) inputs st.

End Reactive.

End Network.

(** ** Bits of a buffer *)

Module Bits.

#[global] Instance byte_eq_dec : EqDecision byte := Byte.byte_eq_dec.

(** The byte with value [n mod 256]. *)
Definition byte_of_N (n : N) : byte :=
  match Byte.of_N (n mod 256) with
  | Some b => b
  | None => x00
  end.

Definition byte_xor (a b : byte) : byte :=
  byte_of_N (N.lxor (Byte.to_N a) (Byte.to_N b)).

(** Bit [k] (0 is the least significant) of byte [b] inverted. *)
Definition flipBit (k : nat) (b : byte) : byte :=
  byte_of_N (N.lxor (Byte.to_N b) (2 ^ N.of_nat k)).

(** The buffer with bit [k] of its byte at [index] inverted; a buffer that
    has no such byte is left as it is. *)
Definition flipBitAt (index k : nat) (buf : list byte) : list byte :=
  match buf !! index with
  | Some b => <[index := flipBit k b]> buf
  | None => buf
  end.

End Bits.

(** ** A small runtime to run the definitions on

    A stream cipher that masks every byte with one byte derived from the key
    and the nonce, a 16-byte tag folded from key, nonce and ciphertext, a
    random source that enumerates the byte values, and a JSON codec for the
    three literals. It satisfies the laws of [RuntimeLaws]. *)

Module Sample.

Definition mask (key iv : list byte) : byte :=
  Bits.byte_xor (hd x00 key) (hd x00 iv).

Definition keystream (key iv buf : list byte) : list byte :=
  map (Bits.byte_xor (mask key iv)) buf.

Definition mac (key iv ciphertext : list byte) : list byte :=
  repeat (fold_right Bits.byte_xor x2a (key ++ iv ++ ciphertext)) 16.

Definition stringify (v : JsValue) : option string :=
  match v with
  | JNull => Some "null"
  | JBool true => Some "true"
  | JBool false => Some "false"
  | _ => None
  end.

Definition parse (s : string) : option JsValue :=
  if String.eqb s "null" then Some JNull
  else if String.eqb s "true" then Some (JBool true)
  else if String.eqb s "false" then Some (JBool false)
  else None.

Definition runtime : Runtime := {|
  randomBytes := fun i n => repeat (Bits.byte_of_N (N.of_nat i)) n;
  aes_256_gcm_encrypt := fun key iv plaintext =>
    (keystream key iv plaintext, mac key iv (keystream key iv plaintext));
  aes_256_gcm_decrypt := fun key iv ciphertext tag =>
    if decide (tag = mac key iv ciphertext)
    then Some (keystream key iv ciphertext)
    else None;
  JSON_stringify := stringify;
  JSON_parse := parse
|}.

(** A manager fresh from its constructor, and a policy that allows no
    operation. *)
Definition manager : Privacy.PrivacyManager := @Privacy.constructor runtime 0.

Definition bare_policy : Privacy.PrivacyPolicy := {|
  Privacy.dataType := "loc";
  Privacy.allowedOperations := [];
  Privacy.retentionPeriod := 3600;
  Privacy.sharingPolicy := {|
    Privacy.allowedNodes := ["B"];
    Privacy.requireConsent := true;
    Privacy.minimumTrust := 1 # 2
  |}
|}.

(** A message, a codec that knows this one message, and a configuration. *)
Definition message : Network.Message := {|
  Network.id := "m1";
  Network.type := "RESOURCE_RESPONSE";
  Network.sender := "A";
  Network.recipient := "B";
  Network.payload := JNull;
  Network.timestamp := Some 1700000000000;
  Network.signature := None
|}.

Definition parse_message (data : string) : option Network.Message :=
  if String.eqb data "m1" then Some message else None.

Definition stringify_message (m : Network.Message) : option string :=
  Some (Network.id m).

Definition config : Network.NetworkConfig := {|
  Network.port := 8080;
  Network.maxConnections := 2;
  Network.discoveryInterval := 1000;
  Network.heartbeatInterval := 30000
|}.

Definition socket : Network.WebSocket := {|
  Network.readyState := Network.OPEN;
  Network.sendFault := None;
  Network.outbox := [];
  Network.pings := 0;
  Network.closeCalls := []
|}.

(** A manager with room for two peers after three peers have connected
    over open transports 0, 1 and 2. *)
Definition crowded : Network.NetworkManager :=
  Network.run parse_message stringify_message
    [Network.TransportChange 0 socket; Network.ServerConnection "A" 0;
     Network.TransportChange 1 socket; Network.ServerConnection "B" 1;
     Network.TransportChange 2 socket; Network.ServerConnection "C" 2]
    (Network.constructor config).

(** The scenario of a location policy: node B is allowed to read, with
    consent and a trust of at least one half. *)
Definition loc_policy : Privacy.PrivacyPolicy := {|
  Privacy.dataType := "loc";
  Privacy.allowedOperations := ["read"];
  Privacy.retentionPeriod := 3600;
  Privacy.sharingPolicy := {|
    Privacy.allowedNodes := ["B"];
    Privacy.requireConsent := true;
    Privacy.minimumTrust := 1 # 2
  |}
|}.

Definition loc_manager (trust : Q) : Privacy.PrivacyManager :=
  snd (Privacy.grantConsent "B" "B" "loc"
    (snd (Privacy.updateTrustScore "B" trust
      (snd (Privacy.setPolicy "loc" loc_policy manager))))).

Definition manager_with_policy : Privacy.PrivacyManager :=
  snd (Privacy.setPolicy "loc" bare_policy manager).

(** The same manager after its host registered a listener for [error]. *)
Definition attended_manager : Privacy.PrivacyManager :=
  snd (Privacy.on_error manager_with_policy).

(** The envelopes of two calls of [encryptData] in a row. *)
Definition envelope : Privacy.EncryptedData :=
  match fst (@Privacy.encryptData runtime (JBool true) "loc" manager_with_policy) with
  | Normal (Some e) => e
  | _ => {| Privacy.data := ""; Privacy.iv := ""; Privacy.tag := "" |}
  end.


(** A transport whose [send] throws, and the crowded manager with it in
    place of peer B's transport. *)
Definition faulty_socket : Network.WebSocket := {|
  Network.readyState := Network.OPEN;
  Network.sendFault := Some (mkError "EPIPE");
  Network.outbox := [];
  Network.pings := 0;
  Network.closeCalls := []
|}.

Definition crowded_faulty : Network.NetworkManager :=
  Network.run parse_message stringify_message
    [Network.TransportChange 1 faulty_socket] crowded.

(** The same manager after its host registered a listener for [error]. *)
Definition attended_faulty : Network.NetworkManager :=
  Network.run parse_message stringify_message [Network.CallOnError] crowded_faulty.

(** A stand-in for the hash: the text in hexadecimal. *)
Definition hash (text : string) : string :=
  Hex.toString (list_byte_of_string text).

(** A policy that keeps nothing. *)
Definition expired_policy : Privacy.PrivacyPolicy := {|
  Privacy.dataType := "tmp";
  Privacy.allowedOperations := ["read"];
  Privacy.retentionPeriod := 0;
  Privacy.sharingPolicy := {|
    Privacy.allowedNodes := [];
    Privacy.requireConsent := false;
    Privacy.minimumTrust := 0
  |}
|}.

(** A manager after a few calls, two of them refused. *)
Definition busy_manager : Privacy.PrivacyManager :=
  @Privacy.run runtime hash
    [Privacy.CallSetPolicy "loc" loc_policy;
     Privacy.CallSetPolicy "tmp" expired_policy;
     Privacy.CallUpdateTrustScore "B" (6 # 10);
     Privacy.CallUpdateTrustScore "C" (3 # 2);
     Privacy.CallUpdateTrustScore "D" 1;
     Privacy.CallGrantConsent "B" "B" "loc";
     Privacy.CallGrantConsent "B" "D" "loc";
     Privacy.CallEncryptData (JBool true) "loc";
     Privacy.CallEncryptData JNull "none"]
    manager.

End Sample.

(** * Properties *)

(** ** Truthiness and the monad *)

Module JsFacts.

(** Unfolds the monad's operations in a goal about a run of a method. *)
Ltac run := unfold bind, get, modify, ret, throw, try_catch, lift_option; cbn.

Lemma truthy_string_iff (s : string) : truthy_string s = true <-> s <> "".
Proof.
  unfold truthy_string. destruct (String.eqb_spec s ""); cbn; intuition congruence.
Qed.

Lemma includes_In (l : list string) (x : string) :
  includes l x = true <-> In x l.
Proof.
  induction l as [|y l IH]; cbn; [intuition discriminate|].
  destruct (String.eqb_spec y x) as [->|Hne]; [intuition|].
  rewrite IH. intuition congruence.
Qed.

End JsFacts.

Import JsFacts.

(** ** Hexadecimal encoding *)


Module HexFacts.

Lemma from_toString_cons (b : byte) (rest : string) :
  Hex.from (String (Hex.hexDigit (Byte.to_N b / 16))
              (String (Hex.hexDigit (Byte.to_N b mod 16)) rest))
  = b :: Hex.from rest.
Proof. destruct b; reflexivity. Qed.

(** Decoding inverts encoding. *)
Lemma from_toString (buf : list byte) : Hex.from (Hex.toString buf) = buf.
Proof.
  induction buf as [|b buf IH]; [reflexivity|].
  cbn [Hex.toString]. rewrite from_toString_cons. now rewrite IH.
Qed.


Example toString_bytes : Hex.toString [x00; x1f; xa5; xff] = "001fa5ff".
Proof. reflexivity. Qed.

Example from_stops_at_bad_digit : Hex.from "0aZZ0b" = [x0a].
Proof. reflexivity. Qed.

(** Decoding does not tell the two cases of a digit apart. *)
Example from_ignores_case : Hex.from "1FA5" = Hex.from "1fa5".
Proof. reflexivity. Qed.

(** The encoding of a buffer has an even number of digits. *)
Lemma validateEncoding_toString (buf : list byte) :
  Hex.validateEncoding (Hex.toString buf) = true.
Proof.
  unfold Hex.validateEncoding. induction buf as [|b buf IH]; [reflexivity|].
  exact IH.
Qed.

End HexFacts.

(** ** Bits *)

Module BitsFacts.
Import Bits.

Lemma to_N_lt (b : byte) : (Byte.to_N b < 256)%N.
Proof. pose proof (Byte.to_N_bounded b). lia. Qed.

Lemma to_N_byte_of_N (n : N) : Byte.to_N (byte_of_N n) = (n mod 256)%N.
Proof.
  unfold byte_of_N.
  destruct (Byte.of_N (n mod 256)) as [b|] eqn:E.
  - now apply Byte.to_of_N.
  - apply Byte.of_N_None_iff in E.
    pose proof (N.mod_upper_bound n 256). lia.
Qed.

Lemma to_N_inj (a b : byte) : Byte.to_N a = Byte.to_N b -> a = b.
Proof.
  intros H. pose proof (Byte.of_to_N a) as Ha. rewrite H, Byte.of_to_N in Ha.
  congruence.
Qed.

Lemma testbit_mod_256 (n i : N) :
  N.testbit (n mod 256) i = (i <? 8)%N && N.testbit n i.
Proof.
  change 256%N with (2 ^ 8)%N.
  destruct (N.ltb_spec i 8).
  - now rewrite N.mod_pow2_bits_low.
  - now rewrite N.mod_pow2_bits_high.
Qed.

Lemma testbit_to_N_high (b : byte) (i : N) :
  (8 <= i)%N -> N.testbit (Byte.to_N b) i = false.
Proof.
  intros Hi. rewrite <- (N.mod_small (Byte.to_N b) 256) by apply to_N_lt.
  rewrite testbit_mod_256.
  destruct (N.ltb_spec i 8); [lia | reflexivity].
Qed.

(** Masking twice with the same byte gives the byte back. *)
Lemma byte_xor_involutive (m b : byte) : byte_xor m (byte_xor m b) = b.
Proof.
  apply to_N_inj. unfold byte_xor. rewrite !to_N_byte_of_N.
  apply N.bits_inj. intros i.
  rewrite testbit_mod_256, N.lxor_spec, testbit_mod_256, N.lxor_spec.
  destruct (N.ltb_spec i 8) as [Hi|Hi]; cbn [andb].
  - now destruct (N.testbit (Byte.to_N m) i), (N.testbit (Byte.to_N b) i).
  - symmetry. now apply testbit_to_N_high.
Qed.

(** Inverting one of the eight bits changes the byte. *)
Lemma flipBit_neq (k : nat) (b : byte) : (k < 8)%nat -> flipBit k b <> b.
Proof.
  intros Hk E. apply (f_equal Byte.to_N) in E.
  unfold flipBit in E. rewrite to_N_byte_of_N in E.
  apply (f_equal (fun n => N.testbit n (N.of_nat k))) in E.
  rewrite testbit_mod_256, N.lxor_spec, N.pow2_bits_true in E.
  destruct (N.ltb_spec (N.of_nat k) 8); [|lia].
  cbn [andb] in E. now destruct (N.testbit (Byte.to_N b) (N.of_nat k)).
Qed.

Lemma flipBitAt_length (index k : nat) (buf : list byte) :
  length (flipBitAt index k buf) = length buf.
Proof.
  unfold flipBitAt. destruct (buf !! index); [apply length_insert | reflexivity].
Qed.

(** Inverting a bit that exists changes the buffer. *)
Lemma flipBitAt_neq (index k : nat) (buf : list byte) :
  (index < length buf)%nat -> (k < 8)%nat -> flipBitAt index k buf <> buf.
Proof.
  intros Hi Hk E. unfold flipBitAt in E.
  destruct (lookup_lt_is_Some_2 buf index Hi) as [b Hb].
  rewrite Hb in E.
  apply (f_equal (fun l => l !! index)) in E.
  rewrite list_lookup_insert_eq, Hb in E by exact Hi.
  injection E as E. now apply (flipBit_neq k b).
Qed.

End BitsFacts.

(** ** PrivacyManager: permissions, policies and consent *)

Module PrivacyFacts.
Import Privacy.

(** The score [checkPermission] reads passes a threshold exactly when the
    stored score, or 0 without one, does. *)
Lemma trustScoreOf_le (st : PrivacyManager) (nodeId : string) (threshold : Q) :
  Qle_bool threshold (trustScoreOf st nodeId) = true
  <-> (threshold <= default 0%Q (trustScores st !! nodeId))%Q.
Proof.
  rewrite Qle_bool_iff. unfold trustScoreOf.
  destruct (trustScores st !! nodeId) as [score|]; cbn; [|reflexivity].
  destruct (Qeq_bool score 0) eqn:E; [|reflexivity].
  apply Qeq_bool_eq in E. now rewrite E.
Qed.

Lemma checkConsent_iff (st : PrivacyManager) (nodeId dataType : string) :
  checkConsent st nodeId dataType = true
  <-> exists consents,
        consentRegistry st !! consentKey nodeId dataType = Some consents
        /\ consents <> ∅.
Proof.
  unfold checkConsent.
  destruct (consentRegistry st !! consentKey nodeId dataType) as [consents|].
  - rewrite Nat.ltb_lt. split.
    + intros Hs. exists consents. split; [reflexivity|].
      intros ->. rewrite size_empty in Hs. lia.
    + intros (c & [= <-] & Hne).
      destruct (decide (size consents = 0%nat)) as [Hz|]; [|lia].
      apply size_empty_inv in Hz. apply leibniz_equiv in Hz. contradiction.
  - split; [discriminate|]. intros (c & Hc & _). discriminate.
Qed.

(** C1. [checkPermission] returns without changing any store, and returns
    true exactly when a policy exists for the data type, the operation is
    one of its allowed operations, the node is one of its allowed nodes, the
    node's trust score (0 without an entry) reaches the minimum trust, and
    consent is not required or the consent set registered under the
    requesting node and the data type is not empty. *)
Theorem checkPermission_iff (st : PrivacyManager) (nodeId dataType operation : string) :
  exists b : bool,
    checkPermission nodeId dataType operation st = (Normal b, st)
    /\ (b = true <->
        exists policy,
          policies st !! dataType = Some policy
          /\ In operation (allowedOperations policy)
          /\ In nodeId (allowedNodes (sharingPolicy policy))
          /\ (minimumTrust (sharingPolicy policy)
              <= default 0%Q (trustScores st !! nodeId))%Q
          /\ (requireConsent (sharingPolicy policy) = false
              \/ exists consents,
                   consentRegistry st !! consentKey nodeId dataType = Some consents
                   /\ consents <> ∅)).
Proof.
  unfold checkPermission. run.
  destruct (policies st !! dataType) as [policy|] eqn:Hp; cbn.
  - eexists. split; [reflexivity|].
    rewrite !andb_true_iff, orb_true_iff, negb_true_iff.
    rewrite !includes_In, trustScoreOf_le, checkConsent_iff.
    split.
    + intros (((Ho & Hn) & Ht) & Hc). exists policy. auto.
    + intros (p & [= <-] & Ho & Hn & Ht & Hc). auto.
  - exists false. split; [reflexivity|].
    split; [discriminate|]. intros (p & Hp' & _). discriminate.
Qed.


(** The location scenario: B may read with trust 0.6, may not write, and
    may not read with trust 0.4. *)
Example loc_read_allowed :
  fst (checkPermission "B" "loc" "read" (Sample.loc_manager (6 # 10))) = Normal true.
Proof. vm_compute. reflexivity. Qed.

Example loc_write_refused :
  fst (checkPermission "B" "loc" "write" (Sample.loc_manager (6 # 10))) = Normal false.
Proof. vm_compute. reflexivity. Qed.

Example loc_low_trust_refused :
  fst (checkPermission "B" "loc" "read" (Sample.loc_manager (4 # 10))) = Normal false.
Proof. vm_compute. reflexivity. Qed.

(** *** Policies *)

(** C5, as the program has it. [setPolicy] throws, storing nothing and
    emitting nothing, exactly when the policy's own [dataType] is empty or
    its [retentionPeriod] is not positive; otherwise it stores the policy
    under the [dataType] it was called with and emits [policyUpdated]. The
    emptiness of [allowedOperations] plays no part. *)
Theorem setPolicy_spec (st : PrivacyManager) (dataType : string) (policy : PrivacyPolicy) :
  match setPolicy dataType policy st with
  | (Throw _, st') =>
      (Privacy.dataType policy = "" \/ retentionPeriod policy <= 0) /\ st' = st
  | (Normal _, st') =>
      Privacy.dataType policy <> "" /\ 0 < retentionPeriod policy
      /\ st' = {| policies := <[dataType := policy]> (policies st);
                  encryptionKey := encryptionKey st;
                  trustScores := trustScores st;
                  consentRegistry := consentRegistry st;
                  emitted := emitted st ++ [policyUpdated dataType policy];
                  draws := draws st;
                  errorListeners := errorListeners st |}
  end.
Proof.
  unfold setPolicy, validatePolicy, truthy_array. run.
  rewrite orb_false_r.
  destruct (truthy_string (Privacy.dataType policy)) eqn:Hd; cbn.
  - apply truthy_string_iff in Hd.
    destruct (Z.leb_spec (retentionPeriod policy) 0); cbn.
    + split; [right; assumption | reflexivity].
    + repeat split; assumption.
  - split; [|reflexivity]. left.
    unfold truthy_string in Hd.
    destruct (String.eqb_spec (Privacy.dataType policy) ""); [assumption|discriminate].
Qed.

(** C5 does not hold as written: a policy whose [allowedOperations] is empty is
    stored, not rejected. *)
Lemma setPolicy_accepts_empty_operations :
  allowedOperations Sample.bare_policy = []
  /\ fst (setPolicy "loc" Sample.bare_policy Sample.manager) = Normal tt
  /\ policies (snd (setPolicy "loc" Sample.bare_policy Sample.manager)) !! "loc"
     = Some Sample.bare_policy
  /\ emitted (snd (setPolicy "loc" Sample.bare_policy Sample.manager))
     = [policyUpdated "loc" Sample.bare_policy].
Proof. vm_compute. repeat split; reflexivity. Qed.

(** *** Consent *)

Lemma grantConsent_run (st : PrivacyManager) (grantor grantee dataType : string) :
  grantConsent grantor grantee dataType st
  = (Normal tt,
     {| policies := policies st;
        encryptionKey := encryptionKey st;
        trustScores := trustScores st;
        consentRegistry :=
          <[consentKey grantor dataType :=
              default ∅ (consentRegistry st !! consentKey grantor dataType)
              ∪ {[grantee]}]> (consentRegistry st);
        emitted := emitted st ++ [consentGranted grantor grantee dataType];
        draws := draws st;
        errorListeners := errorListeners st |}).
Proof.
  unfold grantConsent, emit, deliver, set_consentRegistry. run.
  destruct (consentRegistry st !! consentKey grantor dataType) as [consents|] eqn:E.
  - rewrite bool_decide_true by eauto. cbn. do 2 f_equal.
    apply map_eq. intros k. rewrite lookup_alter, lookup_insert.
    case_decide; [now rewrite E | reflexivity].
  - rewrite bool_decide_false by (intros [? ?]; discriminate). cbn.
    now rewrite alter_insert_eq.
Qed.

Lemma revokeConsent_run (st : PrivacyManager) (grantor grantee dataType : string) :
  revokeConsent grantor grantee dataType st
  = (Normal tt,
     {| policies := policies st;
        encryptionKey := encryptionKey st;
        trustScores := trustScores st;
        consentRegistry :=
          alter (fun consents => consents ∖ {[grantee]})
            (consentKey grantor dataType) (consentRegistry st);
        emitted := emitted st ++ [consentRevoked grantor grantee dataType];
        draws := draws st;
        errorListeners := errorListeners st |}).
Proof. reflexivity. Qed.

(** C8. Neither call throws. When the grantor's consent set for the data
    type holds no other grantee, granting and then revoking leaves
    [checkConsent] false. A second grant of the same triple leaves the
    registry as the first grant left it, and revoking a grantee that is not
    a member leaves the registry as it was; each call only adds its event. *)
Theorem consent_grant_revoke (st : PrivacyManager) (grantor grantee dataType : string) :
  let granted := snd (grantConsent grantor grantee dataType st) in
  let revoked := snd (revokeConsent grantor grantee dataType granted) in
  let twice := snd (grantConsent grantor grantee dataType granted) in
  let removed := snd (revokeConsent grantor grantee dataType st) in
  fst (grantConsent grantor grantee dataType st) = Normal tt
  /\ fst (revokeConsent grantor grantee dataType granted) = Normal tt
  /\ ((forall consents,
         consentRegistry st !! consentKey grantor dataType = Some consents ->
         consents ⊆ {[grantee]}) ->
      checkConsent revoked grantor dataType = false)
  /\ consentRegistry twice = consentRegistry granted
  /\ emitted twice = (emitted granted ++ [consentGranted grantor grantee dataType])%list
  /\ ((forall consents,
         consentRegistry st !! consentKey grantor dataType = Some consents ->
         grantee ∉ consents) ->
      consentRegistry removed = consentRegistry st)
  /\ emitted removed = (emitted st ++ [consentRevoked grantor grantee dataType])%list.
Proof.
  cbv zeta. rewrite !revokeConsent_run, !grantConsent_run. cbn.
  repeat split.
  - intros Hsub. unfold checkConsent. cbn.
    rewrite lookup_alter_eq, lookup_insert_eq. cbn.
    destruct (consentRegistry st !! consentKey grantor dataType) as [consents|] eqn:E; cbn.
    + specialize (Hsub consents eq_refl).
      replace ((consents ∪ {[grantee]}) ∖ {[grantee]}) with (∅ : gset string)
        by set_solver.
      reflexivity.
    + replace ((∅ ∪ {[grantee]}) ∖ {[grantee]}) with (∅ : gset string)
        by set_solver.
      reflexivity.
  - rewrite lookup_insert_eq, insert_insert_eq. cbn. f_equal. set_solver.
  - intros Hnot. apply alter_id. intros consents Hc.
    specialize (Hnot consents Hc). set_solver.
Qed.

Lemma consent_grant_revoke_witness :
  checkConsent
    (snd (revokeConsent "A" "B" "loc" (snd (grantConsent "A" "B" "loc" Sample.manager))))
    "A" "loc" = false
  /\ consentRegistry (snd (revokeConsent "A" "B" "loc" Sample.manager))
     = consentRegistry Sample.manager.
Proof.
  pose proof (consent_grant_revoke Sample.manager "A" "B" "loc") as H.
  cbv zeta in H. destruct H as (_ & _ & Hrevoke & _ & _ & Hremove & _).
  split.
  - apply Hrevoke. intros consents Hc. vm_compute in Hc. discriminate.
  - apply Hremove. intros consents Hc. vm_compute in Hc. discriminate.
Defined.


(** *** Authenticated encryption *)

Section Encryption.
Context {RT : Runtime}.

(** With a policy present and data that serializes, [encryptData] draws 16
    random bytes, seals the serialized data under the manager's key with
    them as the nonce, and returns the three parts in hexadecimal. *)
Lemma encryptData_run (st : PrivacyManager) (data : JsValue) (dataType : string)
    (policy : PrivacyPolicy) (json : string) :
  policies st !! dataType = Some policy ->
  JSON_stringify data = Some json ->
  let nonce := randomBytes (draws st) 16 in
  let sealed := aes_256_gcm_encrypt (encryptionKey st) nonce (list_byte_of_string json) in
  encryptData data dataType st
  = (Normal (Some {| Privacy.data := Hex.toString (fst sealed);
                     iv := Hex.toString nonce;
                     tag := Hex.toString (snd sealed) |}),
     {| policies := policies st; encryptionKey := encryptionKey st;
        trustScores := trustScores st; consentRegistry := consentRegistry st;
        emitted := emitted st; draws := S (draws st);
        errorListeners := errorListeners st |}).
Proof.
  intros Hp Hj. unfold encryptData, draw. run. rewrite Hp. cbn. now rewrite Hj.
Qed.

(** What a successful [encryptData] returned. *)
Lemma encryptData_Some (st st' : PrivacyManager) (data : JsValue) (dataType : string)
    (envelope : EncryptedData) :
  encryptData data dataType st = (Normal (Some envelope), st') ->
  exists json,
    JSON_stringify data = Some json
    /\ envelope
       = {| Privacy.data := Hex.toString (fst (aes_256_gcm_encrypt (encryptionKey st)
                               (randomBytes (draws st) 16) (list_byte_of_string json)));
            iv := Hex.toString (randomBytes (draws st) 16);
            tag := Hex.toString (snd (aes_256_gcm_encrypt (encryptionKey st)
                               (randomBytes (draws st) 16) (list_byte_of_string json))) |}
    /\ encryptionKey st' = encryptionKey st
    /\ draws st' = S (draws st).
Proof.
  unfold encryptData, draw, emit, deliver. run.
  destruct (policies st !! dataType) as [policy|]; cbn;
    [|destruct (errorListeners st); discriminate].
  destruct (JSON_stringify data) as [json|]; cbn;
    [|destruct (errorListeners st); discriminate].
  intros [= <- <-]. exists json. auto.
Qed.

(** C2. With a policy present for the data type and data that
    [JSON.stringify] and [JSON.parse] carry unchanged, [encryptData] returns
    an envelope, and [decryptData], run under the same key, returns the data
    from it (and changes nothing). *)
Theorem decryptData_encryptData (L : RuntimeLaws RT)
    (st : PrivacyManager) (data : JsValue) (dataType : string) :
  is_Some (policies st !! dataType) ->
  serializable data ->
  exists envelope st',
    encryptData data dataType st = (Normal (Some envelope), st')
    /\ decryptData envelope st' = (Normal data, st')
    /\ forall st2, encryptionKey st2 = encryptionKey st ->
         decryptData envelope st2 = (Normal data, st2).
Proof.
  intros [policy Hp] (json & Hj & Hparse).
  eexists _, _. split; [exact (encryptData_run st data dataType policy json Hp Hj)|].
  assert (Hany : forall st2, encryptionKey st2 = encryptionKey st ->
    decryptData
      {| Privacy.data :=
           Hex.toString (fst (aes_256_gcm_encrypt (encryptionKey st)
             (randomBytes (draws st) 16) (list_byte_of_string json)));
         iv := Hex.toString (randomBytes (draws st) 16);
         tag :=
           Hex.toString (snd (aes_256_gcm_encrypt (encryptionKey st)
             (randomBytes (draws st) 16) (list_byte_of_string json))) |} st2
    = (Normal data, st2)).
  { intros st2 Hkey. rewrite <- Hkey. unfold decryptData. run.
    rewrite HexFacts.validateEncoding_toString. cbn.
    rewrite !HexFacts.from_toString, gcm_decrypt_encrypt. cbn.
    now rewrite string_of_list_byte_of_string, Hparse. }
  split; [apply Hany; reflexivity | exact Hany].
Qed.

(** An envelope [encryptData] returned, with its tag replaced by the
    encoding of other bytes of the same number, is refused: the error the
    decipher throws reaches the [catch] block, which emits it. When the
    manager has a listener for [error] the call returns [null]; when it has
    none, [emit] throws the error and the call throws it in turn. *)
Lemma decryptData_wrong_tag (L : RuntimeLaws RT)
    (st st' st2 : PrivacyManager) (data : JsValue) (dataType : string)
    (envelope : EncryptedData) (tag' : string) :
  encryptData data dataType st = (Normal (Some envelope), st') ->
  encryptionKey st2 = encryptionKey st ->
  length (Hex.from tag') = length (Hex.from (tag envelope)) ->
  Hex.from tag' <> Hex.from (tag envelope) ->
  exists e,
    decryptData
      {| Privacy.data := Privacy.data envelope; iv := iv envelope; tag := tag' |} st2
    = match errorListeners st2 with
      | O => (Throw e, st2)
      | S _ =>
          (Normal JNull,
           {| policies := policies st2; encryptionKey := encryptionKey st2;
              trustScores := trustScores st2; consentRegistry := consentRegistry st2;
              emitted := emitted st2 ++ [error e]; draws := draws st2;
              errorListeners := errorListeners st2 |})
      end.
Proof.
  intros Henc Hkey Hlen Hne.
  destruct (encryptData_Some _ _ _ _ _ Henc) as (json & _ & -> & _ & _).
  cbn in Hlen, Hne |- *. rewrite HexFacts.from_toString in Hlen, Hne.
  rewrite <- Hkey in Hlen, Hne |- *.
  unfold decryptData, emit, deliver. run.
  rewrite HexFacts.validateEncoding_toString. cbn.
  rewrite !HexFacts.from_toString, gcm_tag_mismatch by assumption. cbn.
  eexists. destruct (errorListeners st2); reflexivity.
Qed.

(** C3, as the program has it. An envelope [encryptData] returned, with one
    bit of its authentication tag inverted, is refused: [decryptData], run
    under the same key, never returns the data or a part of it. On a
    manager that has a listener for [error] it emits one [error] event and
    returns [null]; on a manager that has none, as every manager is after
    its constructor, emitting [error] throws, and the call throws the
    authentication error instead of returning. (The bit is one of the
    tag's bytes; the [tag] field holds them in hexadecimal.) *)
Theorem decryptData_flipped_tag (L : RuntimeLaws RT)
    (st st' st2 : PrivacyManager) (data : JsValue) (dataType : string)
    (envelope : EncryptedData) (index k : nat) :
  encryptData data dataType st = (Normal (Some envelope), st') ->
  encryptionKey st2 = encryptionKey st ->
  (index < length (Hex.from (tag envelope)))%nat ->
  (k < 8)%nat ->
  exists e,
    decryptData
      {| Privacy.data := Privacy.data envelope;
         iv := iv envelope;
         tag := Hex.toString (Bits.flipBitAt index k (Hex.from (tag envelope))) |}
      st2
    = match errorListeners st2 with
      | O => (Throw e, st2)
      | S _ =>
          (Normal JNull,
           {| policies := policies st2; encryptionKey := encryptionKey st2;
              trustScores := trustScores st2; consentRegistry := consentRegistry st2;
              emitted := emitted st2 ++ [error e]; draws := draws st2;
              errorListeners := errorListeners st2 |})
      end.
Proof.
  intros Henc Hkey Hi Hk.
  apply (decryptData_wrong_tag L st st' st2 data dataType envelope _ Henc Hkey);
    rewrite HexFacts.from_toString.
  - apply BitsFacts.flipBitAt_length.
  - now apply BitsFacts.flipBitAt_neq.
Qed.

(** *** The nonce *)

Variable sha256 : string -> string.




End Encryption.

(** The sample runtime satisfies the laws. *)
Lemma sample_laws : RuntimeLaws Sample.runtime.
Proof.
  split; cbn.
  - intros key iv plaintext. rewrite decide_True by reflexivity.
    f_equal. unfold Sample.keystream. rewrite map_map.
    rewrite <- (map_id plaintext) at 2. apply map_ext.
    intros b. apply BitsFacts.byte_xor_involutive.
  - intros key iv plaintext tag' _ Hne. now rewrite decide_False.
Qed.

Lemma decryptData_encryptData_witness :
  exists envelope st',
    @encryptData Sample.runtime (JBool true) "loc" Sample.manager_with_policy
    = (Normal (Some envelope), st')
    /\ @decryptData Sample.runtime envelope st' = (Normal (JBool true), st')
    /\ forall st2, encryptionKey st2 = encryptionKey Sample.manager_with_policy ->
         @decryptData Sample.runtime envelope st2 = (Normal (JBool true), st2).
Proof.
  apply (@decryptData_encryptData Sample.runtime sample_laws).
  - vm_compute. eauto.
  - exists "true". split; reflexivity.
Defined.

Lemma decryptData_flipped_tag_witness :
  exists e,
    @decryptData Sample.runtime
      {| Privacy.data := Privacy.data Sample.envelope;
         iv := iv Sample.envelope;
         tag := Hex.toString (Bits.flipBitAt 3 5 (Hex.from (tag Sample.envelope))) |}
      Sample.attended_manager
    = (Normal JNull,
       {| policies := policies Sample.attended_manager;
          encryptionKey := encryptionKey Sample.attended_manager;
          trustScores := trustScores Sample.attended_manager;
          consentRegistry := consentRegistry Sample.attended_manager;
          emitted := emitted Sample.attended_manager ++ [error e];
          draws := draws Sample.attended_manager;
          errorListeners := errorListeners Sample.attended_manager |}).
Proof.
  apply (@decryptData_flipped_tag Sample.runtime sample_laws
           Sample.manager_with_policy
           (snd (@encryptData Sample.runtime (JBool true) "loc" Sample.manager_with_policy))
           Sample.attended_manager (JBool true) "loc" Sample.envelope 3 5).
  - vm_compute. reflexivity.
  - reflexivity.
  - vm_compute. lia.
  - lia.
Defined.

(** C3 does not hold as written for a manager nobody listens to: after the
    constructor and [setPolicy] the manager has no listener for [error],
    and [decryptData] of an envelope with a bit of its tag inverted throws
    instead of returning [null]; no event is emitted. *)
Lemma decryptData_flipped_tag_throws :
  errorListeners Sample.manager_with_policy = 0%nat
  /\ exists e,
       @decryptData Sample.runtime
         {| Privacy.data := Privacy.data Sample.envelope;
            iv := iv Sample.envelope;
            tag := Hex.toString (Bits.flipBitAt 3 5 (Hex.from (tag Sample.envelope))) |}
         Sample.manager_with_policy
       = (Throw e, Sample.manager_with_policy).
Proof. vm_compute. split; [reflexivity | eexists; reflexivity]. Qed.


(** The tag is compared as bytes: an envelope whose [tag] is written in
    upper case still decrypts. *)
Example decryptData_upper_case_tag :
  tag Sample.envelope = "3c3c3c3c3c3c3c3c3c3c3c3c3c3c3c3c"
  /\ fst (@decryptData Sample.runtime
            {| Privacy.data := Privacy.data Sample.envelope;
               iv := iv Sample.envelope;
               tag := "3C3C3C3C3C3C3C3C3C3C3C3C3C3C3C3C" |}
            Sample.manager_with_policy)
     = Normal (JBool true).
Proof. vm_compute. split; reflexivity. Qed.

End PrivacyFacts.

(** ** NetworkManager *)

Module NetworkFacts.
Import Network.

(** *** Validation *)

(** C4, as the program has it. [validateMessage] accepts a message exactly
    when [id], [type], [sender] and [recipient] are non-empty and
    [timestamp] is present, is not 0 and is at most the current time; a
    timestamp one second (1000 ms) ahead of the current time is rejected. *)
Theorem validateMessage_iff (message : Message) (now : Z) :
  (validateMessage message now = true <->
   id message <> "" /\ type message <> "" /\ sender message <> ""
   /\ recipient message <> ""
   /\ exists t, timestamp message = Some t /\ t <> 0 /\ t <= now)
  /\ (timestamp message = Some (now + 1000) -> validateMessage message now = false).
Proof.
  assert (Hiff : validateMessage message now = true <->
   id message <> "" /\ type message <> "" /\ sender message <> ""
   /\ recipient message <> ""
   /\ exists t, timestamp message = Some t /\ t <> 0 /\ t <= now).
  { unfold validateMessage, truthy_number.
    rewrite !andb_true_iff, !truthy_string_iff.
    destruct (timestamp message) as [t|].
    - rewrite andb_true_iff, negb_true_iff, Z.eqb_neq, Z.leb_le.
      split.
      + intros ((((Hi & Hty) & Hs) & Hr) & Hz & Hle). eauto 10.
      + intros (Hi & Hty & Hs & Hr & t' & [= <-] & Hz & Hle). auto.
    - split; [intros (_ & Hf); discriminate|].
      intros (_ & _ & _ & _ & t' & Hf & _). discriminate. }
  split; [exact Hiff|].
  intros Ht. destruct (validateMessage message now) eqn:E; [|reflexivity].
  destruct (proj1 Hiff eq_refl) as (_ & _ & _ & _ & t & Ht' & _ & Hle).
  rewrite Ht in Ht'. injection Ht' as <-. lia.
Qed.

Lemma validateMessage_iff_witness :
  validateMessage
    (with_recipient
       {| id := "m1"; type := "DATA_SHARE"; sender := "A"; recipient := "";
          payload := JNull; timestamp := Some 1700000001000; signature := None |} "B")
    1700000000000 = false.
Proof.
  apply (validateMessage_iff _ 1700000000000). reflexivity.
Defined.

(** C4 does not hold as written: a message whose fields are non-empty and whose
    timestamp is present and not in the future, but 0, is rejected. *)
Lemma validateMessage_rejects_zero_timestamp :
  let message :=
    {| id := "m1"; type := "DATA_SHARE"; sender := "A"; recipient := "B";
       payload := JNull; timestamp := Some 0; signature := None |} in
  id message <> "" /\ type message <> "" /\ sender message <> ""
  /\ recipient message <> ""
  /\ (exists t, timestamp message = Some t /\ t <= 1700000000000)
  /\ validateMessage message 1700000000000 = false.
Proof.
  cbv zeta. cbn. repeat split; try discriminate. exists 0. split; [reflexivity|lia].
Qed.


Section WithJSON.
Variable JSON_parse : string -> option Message.
Variable JSON_stringify : Message -> option string.

(** *** Dispatch of inbound messages *)

(** C10. A message that parses and passes validation makes [handleMessage]
    emit two events and nothing else: the event of its type's handler, then
    [messageReceived] with the peer id and the message, whatever the type.
    For the type [RESOURCE_RESPONSE], a member of the enum for which the
    [switch] has no case, the first event is [unknownMessageType]. *)
Theorem handleMessage_valid (st : NetworkManager) (nodeId data : string) (now : Z)
    (message : Message) :
  JSON_parse data = Some message ->
  validateMessage message now = true ->
  exists ev,
    handleMessage JSON_parse nodeId data now st
    = (Normal tt,
       with_emitted (emitted st ++ [ev; messageReceived nodeId message]) st)
    /\ (type message = MessageType_value RESOURCE_RESPONSE ->
        ev = unknownMessageType message).
Proof.
  intros Hparse Hvalid.
  unfold handleMessage, handleResourceRequest, handleDataShare,
    handlePatternUpdate, handleConsensusRequest, handleNodeDiscovery, emit, deliver.
  run. rewrite Hparse. cbn. rewrite Hvalid. cbn.
  unfold with_emitted. cbn.
  destruct (String.eqb_spec (type message) "RESOURCE_REQUEST") as [E1|E1];
    [|destruct (String.eqb_spec (type message) "DATA_SHARE") as [E2|E2];
      [|destruct (String.eqb_spec (type message) "PATTERN_UPDATE") as [E3|E3];
        [|destruct (String.eqb_spec (type message) "CONSENSUS_REQUEST") as [E4|E4];
          [|destruct (String.eqb_spec (type message) "NODE_DISCOVERY") as [E5|E5]]]]].
  all: cbn; rewrite <- app_assoc; cbn;
    (eexists; split; [reflexivity|]); intros Hty;
    try reflexivity; rewrite Hty in *; discriminate.
Qed.

(** *** Sending *)

Lemma sendMessage_absent (st : NetworkManager) (message : Message) :
  connections st !! recipient message = None ->
  sendMessage JSON_stringify message st = (Normal false, st).
Proof. intros Hc. unfold sendMessage. run. now rewrite Hc. Qed.

Lemma sendMessage_not_open (st : NetworkManager) (message : Message) (ws : nat) :
  connections st !! recipient message = Some ws ->
  readyStateOf st ws <> OPEN ->
  sendMessage JSON_stringify message st = (Normal false, st).
Proof.
  intros Hc Hr. unfold sendMessage. run. rewrite Hc.
  destruct (readyStateOf st ws); cbn; congruence.
Qed.

(** [emit] of an [error] event: delivered when somebody listens for it,
    thrown when nobody does. *)
Lemma emit_error (st : NetworkManager) (info : ErrorInfo) :
  emit (error info) st
  = match errorListeners st with
    | O => (Throw (unhandled info), st)
    | S _ => (Normal tt, with_emitted (emitted st ++ [error info]) st)
    end.
Proof. unfold emit, deliver, modify. now destruct (errorListeners st). Qed.

Lemma sendMessage_open (st : NetworkManager) (message : Message) (ws : nat)
    (s : WebSocket) :
  connections st !! recipient message = Some ws ->
  sockets st !! ws = Some s ->
  readyState s = OPEN ->
  sendMessage JSON_stringify message st
  = match JSON_stringify message, sendFault s with
    | Some frame, None =>
        (Normal true,
         with_emitted (emitted st ++ [messageSent message])
           (with_sockets
              (<[ws := {| readyState := OPEN; sendFault := None;
                          outbox := outbox s ++ [frame]; pings := pings s;
                          closeCalls := closeCalls s |}]> (sockets st)) st))
    | Some frame, Some e =>
        match errorListeners st with
        | O => (Throw (unhandled (SendFault message e)), st)
        | S _ =>
            (Normal false,
             with_emitted (emitted st ++ [error (SendFault message e)]) st)
        end
    | None, _ =>
        let e := mkError "Converting circular structure to JSON" in
        match errorListeners st with
        | O => (Throw (unhandled (SendFault message e)), st)
        | S _ =>
            (Normal false,
             with_emitted (emitted st ++ [error (SendFault message e)]) st)
        end
    end.
Proof.
  intros Hc Hs Hr. unfold sendMessage, ws_send, emit, deliver, readyStateOf. run.
  rewrite Hc, Hs, Hr. cbn.
  destruct (JSON_stringify message) as [frame|]; cbn;
    [|now destruct (errorListeners st)].
  rewrite Hs. cbn. rewrite Hr.
  destruct (sendFault s) as [e|]; cbn; [|reflexivity].
  now destruct (errorListeners st).
Qed.

(** C7, as the program has it. [sendMessage] never changes the connection
    table. When the recipient has no entry in the table, or its transport
    is not open, it returns false and changes nothing (no [messageSent]).
    When the transport is open, serialization succeeds and the transport
    accepts the frame, it hands the frame to the transport, emits
    [messageSent] and returns true. When the transport is open and [send]
    throws, the fault is caught and emitted as an [error] event with the
    message: on a manager that has a listener for [error] the event is
    delivered and the call returns false; on a manager that has none, as
    every manager is after its constructor, emitting [error] throws, and
    so does the call. With a listener for [error] the call never throws,
    and a call that throws changed nothing. *)
Theorem sendMessage_spec (st : NetworkManager) (message : Message) :
  connections (snd (sendMessage JSON_stringify message st)) = connections st
  /\ (connections st !! recipient message = None ->
      sendMessage JSON_stringify message st = (Normal false, st))
  /\ (forall ws,
        connections st !! recipient message = Some ws ->
        readyStateOf st ws <> OPEN ->
        sendMessage JSON_stringify message st = (Normal false, st))
  /\ (forall ws s frame,
        connections st !! recipient message = Some ws ->
        sockets st !! ws = Some s ->
        readyState s = OPEN ->
        JSON_stringify message = Some frame ->
        sendFault s = None ->
        sendMessage JSON_stringify message st
        = (Normal true,
           with_emitted (emitted st ++ [messageSent message])
             (with_sockets
                (<[ws := {| readyState := OPEN; sendFault := None;
                            outbox := outbox s ++ [frame]; pings := pings s;
                            closeCalls := closeCalls s |}]> (sockets st)) st)))
  /\ (forall ws s frame e,
        connections st !! recipient message = Some ws ->
        sockets st !! ws = Some s ->
        readyState s = OPEN ->
        JSON_stringify message = Some frame ->
        sendFault s = Some e ->
        sendMessage JSON_stringify message st
        = match errorListeners st with
          | O => (Throw (unhandled (SendFault message e)), st)
          | S _ =>
              (Normal false,
               with_emitted (emitted st ++ [error (SendFault message e)]) st)
          end)
  /\ (errorListeners st <> 0%nat ->
      exists b, fst (sendMessage JSON_stringify message st) = Normal b)
  /\ (forall e,
        fst (sendMessage JSON_stringify message st) = Throw e ->
        errorListeners st = 0%nat
        /\ snd (sendMessage JSON_stringify message st) = st).
Proof.
  assert (Hcases :
    sendMessage JSON_stringify message st = (Normal false, st)
    \/ exists ws s, connections st !! recipient message = Some ws
                    /\ sockets st !! ws = Some s /\ readyState s = OPEN).
  { destruct (connections st !! recipient message) as [ws|] eqn:Hc;
      [|left; now apply sendMessage_absent].
    destruct (sockets st !! ws) as [s|] eqn:Hs.
    - destruct (readyState s) eqn:Hr;
        try (left; apply (sendMessage_not_open st message ws Hc);
             unfold readyStateOf; rewrite Hs, Hr; discriminate).
      right. eauto.
    - left. apply (sendMessage_not_open st message ws Hc).
      unfold readyStateOf. rewrite Hs. discriminate. }
  split; [|split; [|split; [|split; [|split; [|split]]]]].
  - destruct Hcases as [->|(ws & s & Hc & Hs & Hr)]; [reflexivity|].
    rewrite (sendMessage_open st message ws s Hc Hs Hr).
    destruct (JSON_stringify message), (sendFault s), (errorListeners st);
      reflexivity.
  - apply sendMessage_absent.
  - apply sendMessage_not_open.
  - intros ws s frame Hc Hs Hr Hj Hf.
    now rewrite (sendMessage_open st message ws s Hc Hs Hr), Hj, Hf.
  - intros ws s frame e Hc Hs Hr Hj Hf.
    now rewrite (sendMessage_open st message ws s Hc Hs Hr), Hj, Hf.
  - intros Hl. destruct Hcases as [->|(ws & s & Hc & Hs & Hr)]; [eauto|].
    rewrite (sendMessage_open st message ws s Hc Hs Hr).
    destruct (JSON_stringify message), (sendFault s), (errorListeners st);
      cbn; eauto; congruence.
  - intros e. destruct Hcases as [->|(ws & s & Hc & Hs & Hr)]; [discriminate|].
    rewrite (sendMessage_open st message ws s Hc Hs Hr).
    destruct (JSON_stringify message), (sendFault s), (errorListeners st);
      cbn; intros [=]; auto.
Qed.

(** *** The connection limit *)

(** A computation that leaves the configuration alone and adds no entry to
    the connection table. *)
Definition keeps {A} (m : Eff NetworkManager A) : Prop :=
  forall st, config (snd (m st)) = config st
             /\ connections (snd (m st)) ⊆ connections st.

Lemma keeps_ret {A} (a : A) : keeps (ret a).
Proof. intros st. split; reflexivity. Qed.

Lemma keeps_throw {A} (e : Error) : keeps (@throw NetworkManager A e).
Proof. intros st. split; reflexivity. Qed.

Lemma keeps_get : keeps (@get NetworkManager).
Proof. intros st. split; reflexivity. Qed.

Lemma keeps_modify (f : NetworkManager -> NetworkManager) :
  (forall st, config (f st) = config st) ->
  (forall st, connections (f st) ⊆ connections st) ->
  keeps (modify f).
Proof. intros Hc Hs st. split; [apply Hc | apply Hs]. Qed.

Lemma keeps_bind {A B} (m : Eff NetworkManager A) (k : A -> Eff NetworkManager B) :
  keeps m -> (forall a, keeps (k a)) -> keeps (bind m k).
Proof.
  intros Hm Hk st. unfold bind. specialize (Hm st).
  destruct (m st) as [[a|e] st1]; cbn in *; [|exact Hm].
  destruct Hm as [Hc Hs]. destruct (Hk a st1) as [Hc' Hs'].
  split; [congruence | etrans; eassumption].
Qed.

Lemma keeps_try_catch {A} (body : Eff NetworkManager A)
    (handler : Error -> Eff NetworkManager A) :
  keeps body -> (forall e, keeps (handler e)) -> keeps (try_catch body handler).
Proof.
  intros Hm Hk st. unfold try_catch. specialize (Hm st).
  destruct (body st) as [[a|e] st1]; cbn in *; [exact Hm|].
  destruct Hm as [Hc Hs]. destruct (Hk e st1) as [Hc' Hs'].
  split; [congruence | etrans; eassumption].
Qed.

Lemma keeps_lift_option {A} (e : Error) (o : option A) :
  keeps (@lift_option NetworkManager A e o).
Proof. destruct o; [apply keeps_ret | apply keeps_throw]. Qed.

Lemma keeps_forEach {A} (f : A -> Eff NetworkManager unit) (l : list A) :
  (forall x, keeps (f x)) -> keeps (forEach f l).
Proof.
  intros Hf. induction l as [|x l IH]; cbn; [apply keeps_ret|].
  apply keeps_bind; [apply Hf | intros _; exact IH].
Qed.

Lemma keeps_emit (ev : Event) : keeps (emit ev).
Proof.
  intros st. unfold emit.
  destruct ev, (errorListeners st); split; reflexivity.
Qed.

Lemma keeps_ws_close (ws : nat) (why : option (Z * string)) : keeps (ws_close ws why).
Proof. apply keeps_modify; reflexivity. Qed.

Lemma keeps_ws_ping (ws : nat) : keeps (ws_ping ws).
Proof. apply keeps_modify; reflexivity. Qed.

Lemma keeps_ws_send (ws : nat) (frame : string) : keeps (ws_send ws frame).
Proof.
  apply keeps_bind; [apply keeps_get|]. intros st.
  destruct (sockets st !! ws) as [s|]; [|apply keeps_throw].
  destruct (readyState s), (sendFault s);
    first [apply keeps_throw | apply keeps_modify; reflexivity].
Qed.

Create HintDb keeps.
#[local] Hint Resolve keeps_ret keeps_throw keeps_get keeps_lift_option
  keeps_emit keeps_ws_close keeps_ws_ping keeps_ws_send : keeps.

Ltac keeps_step :=
  match goal with
  | |- keeps (bind _ _) => apply keeps_bind; [|intros ?]
  | |- keeps (try_catch _ _) => apply keeps_try_catch; [|intros ?]
  | |- keeps (forEach _ _) => apply keeps_forEach; intros [? ?]
  | |- keeps (modify _) => apply keeps_modify; intros; cbn
  | |- keeps (match ?x with _ => _ end) => destruct x
  | |- keeps _ => solve [auto with keeps]
  end.

Lemma keeps_handleDisconnection (nodeId : string) : keeps (handleDisconnection nodeId).
Proof.
  unfold handleDisconnection. repeat keeps_step; try reflexivity.
  apply delete_subseteq.
Qed.

Lemma keeps_handleMessage (nodeId data : string) (now : Z) :
  keeps (handleMessage JSON_parse nodeId data now).
Proof.
  unfold handleMessage, handleResourceRequest, handleDataShare,
    handlePatternUpdate, handleConsensusRequest, handleNodeDiscovery.
  repeat keeps_step.
Qed.

Lemma keeps_sendMessage (message : Message) :
  keeps (sendMessage JSON_stringify message).
Proof. unfold sendMessage. repeat keeps_step. Qed.

Lemma keeps_broadcast (message : Message) :
  keeps (broadcast JSON_stringify message).
Proof. unfold broadcast. repeat keeps_step. Qed.

Lemma keeps_disconnect : keeps disconnect.
Proof.
  unfold disconnect. repeat keeps_step; try reflexivity.
  apply keeps_handleDisconnection.
Qed.

Lemma keeps_heartbeat (nodeId : string) (ws : nat) : keeps (heartbeat nodeId ws).
Proof.
  unfold heartbeat. repeat keeps_step. apply keeps_handleDisconnection.
Qed.

Lemma keeps_dispatch (ws : nat) (handler : string -> Eff NetworkManager unit) :
  (forall nodeId, keeps (handler nodeId)) -> keeps (dispatch ws handler).
Proof. intros H. unfold dispatch. repeat keeps_step. Qed.

(** An accept at or above the limit only closes the new transport. *)
Lemma handleConnection_full (st : NetworkManager) (nodeId : string) (ws : nat) :
  maxConnections (config st) <= Z.of_nat (size (connections st)) ->
  handleConnection nodeId ws st
  = ws_close ws (Some (1013, "Maximum connections reached")) st.
Proof.
  intros Hfull. unfold handleConnection. run.
  destruct (Z.leb_spec (maxConnections (config st)) (Z.of_nat (size (connections st))));
    [reflexivity | lia].
Qed.

(** An accept below the limit registers the transport under the node id. *)
Lemma handleConnection_room (st : NetworkManager) (nodeId : string) (ws : nat) :
  Z.of_nat (size (connections st)) < maxConnections (config st) ->
  let st' := snd (handleConnection nodeId ws st) in
  config st' = config st
  /\ connections st' = <[nodeId := ws]> (connections st).
Proof.
  intros Hroom. unfold handleConnection, setupHeartbeat, ws_on, emit, deliver. run.
  destruct (Z.leb_spec (maxConnections (config st)) (Z.of_nat (size (connections st))));
    [lia|].
  cbn. split; reflexivity.
Qed.

(** The limit is an invariant of every reaction. *)
Definition within_limit (cfg : NetworkConfig) (st : NetworkManager) : Prop :=
  config st = cfg
  /\ Z.of_nat (size (connections st)) <= maxConnections cfg.

Lemma keeps_within_limit {A} (m : Eff NetworkManager A) (cfg : NetworkConfig)
    (st : NetworkManager) :
  keeps m -> within_limit cfg st -> within_limit cfg (snd (m st)).
Proof.
  intros Hk [Hc Hs]. destruct (Hk st) as [Hc' Hs']. split; [congruence|].
  apply map_subseteq_size in Hs'. lia.
Qed.

Lemma handleConnection_within_limit (cfg : NetworkConfig) (st : NetworkManager)
    (nodeId : string) (ws : nat) :
  within_limit cfg st -> within_limit cfg (snd (handleConnection nodeId ws st)).
Proof.
  intros [Hc Hs].
  destruct (Z.le_gt_cases (maxConnections (config st)) (Z.of_nat (size (connections st))))
    as [Hfull|Hroom].
  - rewrite handleConnection_full by exact Hfull.
    apply keeps_within_limit; [apply keeps_ws_close | split; assumption].
  - destruct (handleConnection_room st nodeId ws Hroom) as [Hc' Hs'].
    split; [congruence|]. rewrite Hs'.
    pose proof (map_size_insert nodeId ws (connections st)) as Hsize.
    rewrite Hsize. subst cfg.
    destruct (connections st !! nodeId); unfold Datatypes.id; lia.
Qed.

Lemma react_within_limit (cfg : NetworkConfig) (st : NetworkManager) (i : Input) :
  within_limit cfg st ->
  within_limit cfg (snd (react JSON_parse JSON_stringify i st)).
Proof.
  intros Hin. destruct i; cbn [react].
  - unfold bind, get. cbn. destruct (server st);
      [now apply handleConnection_within_limit | exact Hin | exact Hin].
  - apply keeps_within_limit; [apply keeps_emit | exact Hin].
  - apply keeps_within_limit; [|exact Hin].
    apply keeps_dispatch. intros. apply keeps_handleMessage.
  - apply keeps_within_limit; [|exact Hin].
    apply keeps_bind; [apply keeps_modify; reflexivity|]. intros _.
    apply keeps_dispatch. apply keeps_handleDisconnection.
  - apply keeps_within_limit; [|exact Hin].
    apply keeps_dispatch. intros. apply keeps_emit.
  - apply keeps_within_limit; [|exact Hin].
    repeat keeps_step. apply keeps_heartbeat.
  - apply keeps_within_limit; [|exact Hin]. apply keeps_modify; reflexivity.
  - apply keeps_within_limit; [|exact Hin]. repeat keeps_step; reflexivity.
  - apply keeps_within_limit; [|exact Hin].
    apply keeps_bind; [apply keeps_sendMessage | intros; apply keeps_ret].
  - apply keeps_within_limit; [apply keeps_broadcast | exact Hin].
  - apply keeps_within_limit; [apply keeps_disconnect | exact Hin].
  - apply keeps_within_limit; [apply keeps_modify; reflexivity | exact Hin].
  - apply keeps_within_limit; [apply keeps_modify; reflexivity | exact Hin].
Qed.

(** C6. An accept that finds the connection count at or above
    [maxConnections] closes the new transport with code 1013 and does
    nothing else: no entry in the table, no heartbeat timer, no handler, no
    event. With a limit that is not negative, in every state the manager
    can reach the count [getNetworkStats] reports is at most the limit. *)
Theorem connection_limit (cfg : NetworkConfig) :
  (forall st nodeId ws,
     maxConnections (config st) <= Z.of_nat (size (connections st)) ->
     let st' := snd (handleConnection nodeId ws st) in
     fst (handleConnection nodeId ws st) = Normal tt
     /\ connections st' = connections st
     /\ heartbeatIntervals st' = heartbeatIntervals st
     /\ timers st' = timers st
     /\ listeners st' = listeners st
     /\ emitted st' = emitted st
     /\ (forall s, sockets st !! ws = Some s ->
           exists s', sockets st' !! ws = Some s'
             /\ closeCalls s'
                = (closeCalls s ++ [Some (1013, "Maximum connections reached")])%list))
  /\ (0 <= maxConnections cfg ->
      forall st, reachable JSON_parse JSON_stringify cfg st ->
        Z.of_nat (connectedNodes (getNetworkStats st))
        <= maxConnections' (getNetworkStats st)
        /\ maxConnections' (getNetworkStats st) = maxConnections cfg).
Proof.
  split.
  - intros st nodeId ws Hfull. cbv zeta.
    rewrite handleConnection_full by exact Hfull.
    unfold ws_close, modify. cbn. repeat split.
    intros s Hs. rewrite lookup_alter_eq, Hs. cbn. eauto.
  - intros Hmax st Hreach.
    assert (Hin : within_limit cfg st).
    { induction Hreach as [|st i _ IH].
      - split; [reflexivity|]. cbn. rewrite map_size_empty. exact Hmax.
      - now apply react_within_limit. }
    destruct Hin as [Hc Hs]. cbn. rewrite Hc. split; [exact Hs | reflexivity].
Qed.

End WithJSON.

Lemma handleMessage_valid_witness :
  exists ev,
    handleMessage Sample.parse_message "B" "m1" 1700000000001 (constructor Sample.config)
    = (Normal tt,
       with_emitted
         (emitted (constructor Sample.config)
          ++ [ev; messageReceived "B" Sample.message])
         (constructor Sample.config))
    /\ (type Sample.message = MessageType_value RESOURCE_RESPONSE ->
        ev = unknownMessageType Sample.message).
Proof.
  apply handleMessage_valid; reflexivity.
Defined.

Lemma reachable_run (cfg : NetworkConfig) (parse : string -> option Message)
    (stringify : Message -> option string) (inputs : list Input) (st : NetworkManager) :
  reachable parse stringify cfg st ->
  reachable parse stringify cfg (run parse stringify inputs st).
Proof.
  revert st. induction inputs as [|i inputs IH]; intros st Hst; [exact Hst|].
  cbn. apply IH. now apply reachable_react.
Qed.

(** The third peer was turned away. *)
Example crowded_connections :
  activeConnections (getNetworkStats Sample.crowded) = ["A"; "B"]
  /\ connectedNodes (getNetworkStats Sample.crowded) = 2%nat
  /\ emitted Sample.crowded = [nodeConnected "A"; nodeConnected "B"].
Proof. vm_compute. repeat split; reflexivity. Qed.

Lemma connection_limit_witness :
  Z.of_nat (connectedNodes (getNetworkStats Sample.crowded))
  <= maxConnections' (getNetworkStats Sample.crowded)
  /\ maxConnections' (getNetworkStats Sample.crowded) = maxConnections Sample.config.
Proof.
  destruct (connection_limit Sample.parse_message Sample.stringify_message Sample.config)
    as [_ Hlimit].
  apply Hlimit.
  - cbn. lia.
  - apply reachable_run, reachable_constructor.
Defined.

Lemma sendMessage_spec_witness :
  fst (sendMessage Sample.stringify_message Sample.message Sample.crowded) = Normal true
  /\ sendMessage Sample.stringify_message Sample.message Sample.attended_faulty
     = (Normal false,
        with_emitted
          (emitted Sample.attended_faulty
           ++ [error (SendFault Sample.message (mkError "EPIPE"))])
          Sample.attended_faulty).
Proof.
  split.
  - destruct (sendMessage_spec Sample.stringify_message Sample.crowded Sample.message)
      as (_ & _ & _ & Hsent & _).
    rewrite (Hsent 1%nat Sample.socket "m1"); reflexivity.
  - destruct (sendMessage_spec Sample.stringify_message Sample.attended_faulty
                Sample.message) as (_ & _ & _ & _ & Hfault & _).
    rewrite (Hfault 1%nat Sample.faulty_socket "m1" (mkError "EPIPE")); reflexivity.
Defined.

(** C7 does not hold as written for a manager nobody listens to: with no
    listener for [error], a fault of [send] on the recipient's open
    transport makes [sendMessage] throw instead of returning false, and no
    event is emitted. *)
Lemma sendMessage_fault_throws :
  errorListeners Sample.crowded_faulty = 0%nat
  /\ connections Sample.crowded_faulty !! recipient Sample.message = Some 1%nat
  /\ sockets Sample.crowded_faulty !! 1%nat = Some Sample.faulty_socket
  /\ sendMessage Sample.stringify_message Sample.message Sample.crowded_faulty
     = (Throw (mkError "Unhandled error."), Sample.crowded_faulty).
Proof. vm_compute. repeat split; reflexivity. Qed.

End NetworkFacts.

(** ** PrivacyManager: trust, consent keys, failure paths, proofs, metrics *)

Module PrivacyMore.
Import Privacy.

Lemma Qlt_bool_iff (x y : Q) : Qlt_bool x y = true <-> (x < y)%Q.
Proof.
  unfold Qlt_bool. rewrite negb_true_iff. split.
  - intros H. apply Qnot_le_lt. intros Hle.
    apply Qle_bool_iff in Hle. congruence.
  - intros H. destruct (Qle_bool y x) eqn:E; [|reflexivity].
    apply Qle_bool_iff in E. exfalso. now apply (Qlt_not_le x y).
Qed.

Lemma updateTrustScore_range (score : Q) :
  Qlt_bool score 0 || Qlt_bool 1 score = false <-> (0 <= score <= 1)%Q.
Proof.
  rewrite orb_false_iff. split.
  - intros [H0 H1]. split; apply Qnot_lt_le; intros Hlt;
      apply Qlt_bool_iff in Hlt; congruence.
  - intros [H0 H1]. split.
    + destruct (Qlt_bool score 0) eqn:E; [|reflexivity].
      apply Qlt_bool_iff in E. exfalso. now apply (Qlt_not_le score 0).
    + destruct (Qlt_bool 1 score) eqn:E; [|reflexivity].
      apply Qlt_bool_iff in E. exfalso. now apply (Qlt_not_le 1 score).
Qed.

(** What an accepted [updateTrustScore] does. *)
Lemma updateTrustScore_run (st : PrivacyManager) (nodeId : string) (score : Q) :
  (0 <= score <= 1)%Q ->
  updateTrustScore nodeId score st
  = (Normal tt,
     {| policies := policies st; encryptionKey := encryptionKey st;
        trustScores := <[nodeId := score]> (trustScores st);
        consentRegistry := consentRegistry st;
        emitted := emitted st ++ [trustScoreUpdated nodeId score];
        draws := draws st;
        errorListeners := errorListeners st |}).
Proof.
  intros H. apply updateTrustScore_range in H.
  unfold updateTrustScore. now rewrite H.
Qed.

(** X1. [updateTrustScore] throws, leaving the manager as it was, exactly
    when the score is below 0 or above 1; a score from 0 to 1, both ends
    included, is stored under the node and announced by
    [trustScoreUpdated]. *)
Theorem updateTrustScore_spec (st : PrivacyManager) (nodeId : string) (score : Q) :
  match updateTrustScore nodeId score st with
  | (Throw _, st') => (score < 0 \/ 1 < score)%Q /\ st' = st
  | (Normal _, st') =>
      (0 <= score <= 1)%Q
      /\ st' = {| policies := policies st; encryptionKey := encryptionKey st;
                  trustScores := <[nodeId := score]> (trustScores st);
                  consentRegistry := consentRegistry st;
                  emitted := emitted st ++ [trustScoreUpdated nodeId score];
                  draws := draws st;
                  errorListeners := errorListeners st |}
  end.
Proof.
  unfold updateTrustScore.
  destruct (Qlt_bool score 0 || Qlt_bool 1 score) eqn:E.
  - cbn. split; [|reflexivity]. apply orb_true_iff in E.
    destruct E as [E|E]; apply Qlt_bool_iff in E; auto.
  - apply updateTrustScore_range in E. cbn. split; [exact E | reflexivity].
Qed.

(** X2. After an accepted [updateTrustScore], the score [checkPermission]
    reads for that node is the new one, the scores it reads for the other
    nodes are as before, and a permission check of that node passes its
    trust test exactly when the new score reaches the policy's minimum. *)
Theorem updateTrustScore_read (st : PrivacyManager) (nodeId : string) (score : Q) :
  (0 <= score <= 1)%Q ->
  let st' := snd (updateTrustScore nodeId score st) in
  (trustScoreOf st' nodeId == score)%Q
  /\ (forall other, other <> nodeId -> trustScoreOf st' other = trustScoreOf st other)
  /\ (forall threshold,
        Qle_bool threshold (trustScoreOf st' nodeId) = true <-> (threshold <= score)%Q).
Proof.
  intros Hrange. cbv zeta. rewrite (updateTrustScore_run st nodeId score Hrange). cbn.
  assert (Hread : (trustScoreOf
     {| policies := policies st; encryptionKey := encryptionKey st;
        trustScores := <[nodeId := score]> (trustScores st);
        consentRegistry := consentRegistry st;
        emitted := emitted st ++ [trustScoreUpdated nodeId score];
        draws := draws st;
        errorListeners := errorListeners st |} nodeId == score)%Q).
  { unfold trustScoreOf. cbn. rewrite lookup_insert_eq.
    destruct (Qeq_bool score 0) eqn:E; [|reflexivity].
    apply Qeq_bool_eq in E. now rewrite E. }
  split; [exact Hread|]. split.
  - intros other Hne. unfold trustScoreOf. cbn.
    now rewrite lookup_insert_ne by congruence.
  - intros threshold. rewrite Qle_bool_iff. now rewrite Hread.
Qed.

Lemma updateTrustScore_read_witness :
  (trustScoreOf (snd (updateTrustScore "B" 1 Sample.manager)) "B" == 1)%Q.
Proof.
  apply (updateTrustScore_read Sample.manager "B" 1). split; discriminate.
Defined.

(** *** Consent keys *)

Lemma checkConsent_granted (st : PrivacyManager) (grantor grantee dataType : string) :
  checkConsent (snd (grantConsent grantor grantee dataType st)) grantor dataType = true.
Proof.
  assert (H : (size ({[grantee]} : gset string)
          <= size (default ∅ (consentRegistry st !! consentKey grantor dataType)
                   ∪ {[grantee]}))%nat)
    by (apply subseteq_size; set_solver).
  rewrite size_singleton in H.
  rewrite PrivacyFacts.grantConsent_run. unfold checkConsent.
  cbn [snd consentRegistry]. rewrite lookup_insert_eq.
  apply Nat.ltb_lt. lia.
Qed.

(** X3. A grant by a node to any grantee at all satisfies the consent test
    of that node's own permission checks: [checkConsent] looks at whether
    the grantor's set is non-empty, never at who is in it. After
    [grantConsent(nodeId, grantee, dataType)], a permission check of
    [nodeId] passes exactly when the policy, operation, node and trust tests
    pass, whether the policy requires consent or not. *)
Theorem grantConsent_self_consent (st : PrivacyManager)
    (nodeId grantee dataType operation : string) (policy : PrivacyPolicy) :
  policies st !! dataType = Some policy ->
  let st' := snd (grantConsent nodeId grantee dataType st) in
  checkConsent st' nodeId dataType = true
  /\ fst (checkPermission nodeId dataType operation st')
     = Normal (includes (allowedOperations policy) operation
               && includes (allowedNodes (sharingPolicy policy)) nodeId
               && Qle_bool (minimumTrust (sharingPolicy policy)) (trustScoreOf st nodeId)).
Proof.
  intros Hp. cbv zeta. split; [apply checkConsent_granted|].
  pose proof (checkConsent_granted st nodeId grantee dataType) as Hc.
  rewrite PrivacyFacts.grantConsent_run in Hc |- *. cbn [snd] in Hc |- *.
  unfold checkPermission. run. rewrite Hp. cbn [fst].
  rewrite Hc, orb_true_r, andb_true_r. reflexivity.
Qed.

Lemma grantConsent_self_consent_witness :
  checkConsent (snd (grantConsent "B" "Z" "loc" Sample.manager_with_policy)) "B" "loc"
  = true.
Proof.
  apply (grantConsent_self_consent Sample.manager_with_policy "B" "Z" "loc" "read"
           Sample.bare_policy).
  reflexivity.
Defined.

Lemma append_associative (a b c : string) : (a ++ b) ++ c = a ++ (b ++ c).
Proof.
  induction a as [|ch a IH]; [reflexivity|].
  change (String ch ((a ++ b) ++ c) = String ch (a ++ (b ++ c))).
  now rewrite IH.
Qed.

Lemma consentKey_shift (x y z : string) :
  consentKey (x ++ ":" ++ y) z = consentKey x (y ++ ":" ++ z).
Proof. unfold consentKey. now rewrite !append_associative. Qed.

(** X4. Consent keys are the two names joined by a colon, so they collide:
    a grant by the node named [x:y] for data type [z] is read as consent of
    node [x] for data type [y:z]. *)
Theorem consentKey_collision (st : PrivacyManager) (x y z grantee : string) :
  checkConsent (snd (grantConsent (x ++ ":" ++ y) grantee z st)) x (y ++ ":" ++ z)
  = true.
Proof.
  pose proof (checkConsent_granted st (x ++ ":" ++ y) grantee z) as H.
  unfold checkConsent in *. now rewrite <- consentKey_shift.
Qed.


(** *** Failure paths of encryption and decryption *)

Section Failures.
Context {RT : Runtime}.

(** X5. [encryptData] touches neither the policies, the key, the trust
    scores nor the consent registry. It returns an envelope exactly when a
    policy exists for the data type and the data serializes, and then emits
    nothing. It fails in two ways: without a policy, with the "No privacy
    policy found" error and before any random bytes are drawn; with a
    policy and data that does not serialize, after the nonce was drawn. On
    a manager that has a listener for [error] a failure emits one [error]
    event and the call returns [null]; on a manager that has none, emitting
    [error] throws, so the call throws the error and no event is
    emitted. *)
Theorem encryptData_outcome (st : PrivacyManager) (data : JsValue) (dataType : string) :
  let st' := snd (encryptData data dataType st) in
  let missing := mkError ("No privacy policy found for data type: " ++ dataType) in
  policies st' = policies st
  /\ encryptionKey st' = encryptionKey st
  /\ trustScores st' = trustScores st
  /\ consentRegistry st' = consentRegistry st
  /\ errorListeners st' = errorListeners st
  /\ match fst (encryptData data dataType st) with
     | Normal (Some envelope) =>
         is_Some (policies st !! dataType) /\ is_Some (JSON_stringify data)
         /\ emitted st' = emitted st /\ draws st' = S (draws st)
     | Normal None =>
         errorListeners st <> 0%nat
         /\ ((policies st !! dataType = None
              /\ draws st' = draws st
              /\ emitted st' = (emitted st ++ [error missing])%list)
             \/ (is_Some (policies st !! dataType) /\ JSON_stringify data = None
                 /\ draws st' = S (draws st)
                 /\ exists e, emitted st' = (emitted st ++ [error e])%list))
     | Throw e =>
         errorListeners st = 0%nat
         /\ emitted st' = emitted st
         /\ ((policies st !! dataType = None
              /\ draws st' = draws st
              /\ e = missing)
             \/ (is_Some (policies st !! dataType) /\ JSON_stringify data = None
                 /\ draws st' = S (draws st)))
     end.
Proof.
  unfold encryptData, draw, emit, deliver. run.
  destruct (policies st !! dataType) as [policy|] eqn:Hp; cbn.
  - destruct (JSON_stringify data) as [json|] eqn:Hj; cbn.
    + repeat split; eauto.
    + destruct (errorListeners st) eqn:Hl; cbn;
        repeat split; try congruence; right; repeat split; eauto.
  - destruct (errorListeners st) eqn:Hl; cbn;
      repeat split; try congruence; left; repeat split.
Qed.


(** *** The placeholder proofs *)

Variable sha256 : string -> string.

(** X7. [generateZKProof] leaves the manager as it was; it throws exactly
    when the data does not serialize, and a proof it returns carries the
    statement it was asked for and is accepted by [verifyZKProof]. *)
Theorem verifyZKProof_generateZKProof (st : PrivacyManager) (data : JsValue)
    (statement : string) :
  match generateZKProof sha256 data statement st with
  | (Normal zkProof, st') =>
      st' = st /\ is_Some (JSON_stringify data)
      /\ Privacy.statement (publicInputs zkProof) = statement
      /\ verifyZKProof sha256 zkProof = true
  | (Throw _, st') => st' = st /\ JSON_stringify data = None
  end.
Proof.
  unfold generateZKProof, verifyZKProof. run.
  destruct (JSON_stringify data) as [json|]; cbn; [|split; reflexivity].
  repeat split; eauto. apply String.eqb_refl.
Qed.

(** X8. [verifyZKProof] hashes the proof and the statement joined without a
    separator, so it does not tell where one ends and the other starts: a
    proof generated for the statement [s1 ++ s2] is also accepted for the
    statement [s2] alone, once [s1] is appended to the proof string. *)
Theorem verifyZKProof_statement_shift (st st' : PrivacyManager) (data : JsValue)
    (s1 s2 : string) (zkProof : ZKProof) :
  generateZKProof sha256 data (s1 ++ s2) st = (Normal zkProof, st') ->
  verifyZKProof sha256
    {| proof := proof zkProof ++ s1;
       publicInputs := {| Privacy.statement := s2 |};
       verification := verification zkProof |} = true.
Proof.
  unfold generateZKProof, verifyZKProof. run.
  destruct (JSON_stringify data) as [json|]; cbn; [|discriminate].
  intros [= <- _]. cbn. rewrite append_associative. apply String.eqb_refl.
Qed.

End Failures.

Lemma verifyZKProof_statement_shift_witness :
  @verifyZKProof Sample.hash
    {| proof := Sample.hash "true" ++ "age>";
       publicInputs := {| Privacy.statement := "18" |};
       verification := Sample.hash (Sample.hash "true" ++ "age>18") |} = true.
Proof.
  apply (@verifyZKProof_statement_shift Sample.runtime Sample.hash
           Sample.manager Sample.manager (JBool true) "age>" "18"
           {| proof := Sample.hash "true";
              publicInputs := {| Privacy.statement := "age>18" |};
              verification := Sample.hash (Sample.hash "true" ++ "age>18") |}).
  reflexivity.
Defined.


(** *** What every reachable manager satisfies *)

(** The key is [key], every stored trust score lies between 0 and 1, and
    every stored policy passed [validatePolicy]. *)
Definition well_formed (key : list byte) (st : PrivacyManager) : Prop :=
  encryptionKey st = key
  /\ (forall nodeId score,
        trustScores st !! nodeId = Some score -> (0 <= score <= 1)%Q)
  /\ (forall dataType policy,
        policies st !! dataType = Some policy ->
        Privacy.dataType policy <> "" /\ 0 < retentionPeriod policy).

Section Invariant.
Context {RT : Runtime}.
Variable sha256 : string -> string.

Lemma setPolicy_cases (st : PrivacyManager) (dataType : string) (policy : PrivacyPolicy) :
  (exists e, setPolicy dataType policy st = (Throw e, st))
  \/ (Privacy.dataType policy <> "" /\ 0 < retentionPeriod policy
      /\ setPolicy dataType policy st
         = (Normal tt,
            {| policies := <[dataType := policy]> (policies st);
               encryptionKey := encryptionKey st;
               trustScores := trustScores st;
               consentRegistry := consentRegistry st;
               emitted := emitted st ++ [policyUpdated dataType policy];
               draws := draws st;
               errorListeners := errorListeners st |})).
Proof.
  unfold setPolicy, validatePolicy, truthy_array. run. rewrite orb_false_r.
  destruct (truthy_string (Privacy.dataType policy)) eqn:Hd; cbn; [|eauto].
  apply truthy_string_iff in Hd.
  destruct (Z.leb_spec (retentionPeriod policy) 0); cbn; [eauto|].
  right. auto.
Qed.

Lemma updateTrustScore_cases (st : PrivacyManager) (nodeId : string) (score : Q) :
  (exists e, updateTrustScore nodeId score st = (Throw e, st))
  \/ (0 <= score <= 1)%Q.
Proof.
  unfold updateTrustScore.
  destruct (Qlt_bool score 0 || Qlt_bool 1 score) eqn:E; [left; eauto|].
  right. now apply updateTrustScore_range.
Qed.

Lemma well_formed_frame (key : list byte) (st st' : PrivacyManager) :
  encryptionKey st' = encryptionKey st ->
  trustScores st' = trustScores st ->
  policies st' = policies st ->
  well_formed key st -> well_formed key st'.
Proof. intros Hk Ht Hp. unfold well_formed. now rewrite Hk, Ht, Hp. Qed.

Lemma perform_well_formed (key : list byte) (st : PrivacyManager) (c : Call) :
  well_formed key st -> well_formed key (snd (perform sha256 c st)).
Proof.
  intros Hwf.
  destruct c as [data dt | envelope | data statement | dt policy
                | nodeId dt operation | grantor grantee dt | grantor grantee dt
                | nodeId score | |]; cbn [perform].
  - apply (well_formed_frame key st); [| | |exact Hwf];
      unfold encryptData, draw, emit, deliver; run;
      (destruct (policies st !! dt); cbn;
       [destruct (JSON_stringify data); cbn|]);
      destruct (errorListeners st); reflexivity.
  - apply (well_formed_frame key st); [| | |exact Hwf];
      unfold decryptData, emit, deliver; run;
      (destruct (Hex.validateEncoding (data envelope)); cbn;
       [destruct (aes_256_gcm_decrypt _ _ _ _) as [pt|]; cbn;
        [destruct (JSON_parse (string_of_list_byte pt)); cbn|]|]);
      destruct (errorListeners st); reflexivity.
  - apply (well_formed_frame key st); [| | |exact Hwf];
      unfold generateZKProof; run;
      destruct (JSON_stringify data); reflexivity.
  - destruct (setPolicy_cases st dt policy) as [[e ->]|(Hd & Hr & ->)];
      [exact Hwf|].
    destruct Hwf as (Hkey & Htrust & Hpol).
    split; [exact Hkey|]. split; [exact Htrust|].
    intros dt' p. cbn. rewrite lookup_insert. case_decide.
    + intros [= <-]. auto.
    + apply Hpol.
  - apply (well_formed_frame key st); [| | |exact Hwf];
      unfold checkPermission; run;
      destruct (policies st !! dt); reflexivity.
  - rewrite PrivacyFacts.grantConsent_run.
    now apply (well_formed_frame key st).
  - rewrite PrivacyFacts.revokeConsent_run.
    now apply (well_formed_frame key st).
  - destruct (updateTrustScore_cases st nodeId score) as [[e ->]|Hrange];
      [exact Hwf|].
    rewrite (updateTrustScore_run st nodeId score Hrange).
    destruct Hwf as (Hkey & Htrust & Hpol).
    split; [exact Hkey|]. split; [|exact Hpol].
    intros n s. cbn. rewrite lookup_insert. case_decide.
    + intros [= <-]. exact Hrange.
    + apply Htrust.
  - exact Hwf.
  - exact Hwf.
Qed.

Lemma reachable_well_formed (n : nat) (st : PrivacyManager) :
  reachable sha256 n st -> well_formed (randomBytes n 32) st.
Proof.
  induction 1 as [|st c _ IH].
  - split; [reflexivity|]. split; intros ? ?; cbn; rewrite lookup_empty; discriminate.
  - now apply perform_well_formed.
Qed.

(** X9. Whatever its callers do, a manager keeps the key it drew in its
    constructor, never stores a trust score that is below 0 or above 1, and
    never stores a policy whose [dataType] field is empty or whose
    [retentionPeriod] is zero or negative. (The guards of
    [updateTrustScore] and [validatePolicy] are the comparisons [score < 0],
    [score > 1] and [retentionPeriod <= 0]; the property is what they
    exclude. A value that is not a number passes these comparisons; the
    scores and periods of the embedding are numbers.) *)
Theorem reachable_invariant (n : nat) (st : PrivacyManager) :
  reachable sha256 n st ->
  encryptionKey st = randomBytes n 32
  /\ (forall nodeId score,
        trustScores st !! nodeId = Some score ->
        ~ (score < 0)%Q /\ ~ (1 < score)%Q)
  /\ (forall dataType policy,
        policies st !! dataType = Some policy ->
        Privacy.dataType policy <> "" /\ ~ retentionPeriod policy <= 0).
Proof.
  intros H. destruct (reachable_well_formed n st H) as (Hkey & Htrust & Hpol).
  split; [exact Hkey|]. split.
  - intros nodeId score Hs. destruct (Htrust nodeId score Hs) as [H0 H1].
    split; apply Qle_not_lt; assumption.
  - intros dataType policy Hp. destruct (Hpol dataType policy Hp) as [Hd Hr].
    split; [exact Hd | lia].
Qed.

(** *** The metrics *)

Lemma sum_scores_bounds (scores : list Q) (acc : Q) :
  Forall (fun score => 0 <= score <= 1)%Q scores ->
  (acc <= fold_left Qplus scores acc
   /\ fold_left Qplus scores acc <= acc + inject_Z (Z.of_nat (length scores)))%Q.
Proof.
  intros H. revert acc. induction H as [|score scores [H0 H1] _ IH]; intros acc.
  - cbn [fold_left length]. change (inject_Z (Z.of_nat 0)) with 0%Q. split; lra.
  - cbn [fold_left length]. destruct (IH (acc + score)%Q) as [IHl IHu].
    rewrite Nat2Z.inj_succ, <- Z.add_1_r, inject_Z_plus.
    change (inject_Z 1) with 1%Q. split; lra.
Qed.

Lemma calculateAverageTrust_bounds (st : PrivacyManager) :
  (forall nodeId score,
     trustScores st !! nodeId = Some score -> (0 <= score <= 1)%Q) ->
  (0 <= calculateAverageTrust st <= 1)%Q.
Proof.
  intros Htrust. unfold calculateAverageTrust.
  destruct (Nat.eqb_spec (size (trustScores st)) 0) as [|Hne]; [split; discriminate|].
  assert (Hall : Forall (fun score => 0 <= score <= 1)%Q (map_to_list (trustScores st)).*2).
  { apply Forall_forall. intros score Hin.
    apply list_elem_of_fmap in Hin. destruct Hin as ([nodeId s] & -> & Hin).
    apply elem_of_map_to_list in Hin. exact (Htrust nodeId s Hin). }
  destruct (sum_scores_bounds _ 0%Q Hall) as [Hl Hu].
  rewrite length_fmap, length_map_to_list in Hu.
  assert (Hpos : (0 < inject_Z (Z.of_nat (size (trustScores st))))%Q).
  { change 0%Q with (inject_Z 0). rewrite <- Zlt_Qlt. lia. }
  split.
  - apply Qle_shift_div_l; [exact Hpos|]. lra.
  - apply Qle_shift_div_r; [exact Hpos|]. lra.
Qed.

(** X10. In every state a manager can reach, the average trust score that
    [getPrivacyMetrics] reports is never below 0 and never above 1; with no
    score stored it is 0. *)
Theorem averageTrustScore_bounds (n : nat) (st : PrivacyManager) :
  reachable sha256 n st ->
  ~ (averageTrustScore (getPrivacyMetrics st) < 0)%Q
  /\ ~ (1 < averageTrustScore (getPrivacyMetrics st))%Q
  /\ (trustScores st = ∅ -> averageTrustScore (getPrivacyMetrics st) = 0%Q).
Proof.
  intros H. destruct (reachable_well_formed n st H) as (_ & Htrust & _).
  destruct (calculateAverageTrust_bounds st Htrust) as [H0 H1].
  split; [apply Qle_not_lt; exact H0|]. split; [apply Qle_not_lt; exact H1|].
  intros Hempty. cbn. unfold calculateAverageTrust. now rewrite Hempty.
Qed.

Lemma reachable_calls (n : nat) (calls : list Call) (st : PrivacyManager) :
  reachable sha256 n st -> reachable sha256 n (run sha256 calls st).
Proof.
  revert st. induction calls as [|c calls IH]; intros st Hst; [exact Hst|].
  cbn. apply IH. now apply reachable_perform.
Qed.

End Invariant.


Lemma reachable_invariant_witness :
  encryptionKey Sample.busy_manager = @randomBytes Sample.runtime 0 32
  /\ (forall nodeId score,
        trustScores Sample.busy_manager !! nodeId = Some score ->
        ~ (score < 0)%Q /\ ~ (1 < score)%Q)
  /\ (forall dataType policy,
        policies Sample.busy_manager !! dataType = Some policy ->
        Privacy.dataType policy <> "" /\ ~ retentionPeriod policy <= 0).
Proof.
  apply (@reachable_invariant Sample.runtime Sample.hash 0 Sample.busy_manager).
  apply reachable_calls, reachable_constructor.
Defined.

Lemma averageTrustScore_bounds_witness :
  ~ (averageTrustScore (getPrivacyMetrics Sample.busy_manager) < 0)%Q
  /\ ~ (1 < averageTrustScore (getPrivacyMetrics Sample.busy_manager))%Q
  /\ (trustScores Sample.busy_manager = ∅ ->
      averageTrustScore (getPrivacyMetrics Sample.busy_manager) = 0%Q).
Proof.
  apply (@averageTrustScore_bounds Sample.runtime Sample.hash 0 Sample.busy_manager).
  apply reachable_calls, reachable_constructor.
Defined.

(** Two scores are stored, 6/10 and 1; two policies were offered, one
    stored; two grants were made. *)
Example busy_manager_metrics :
  policyCount (getPrivacyMetrics Sample.busy_manager) = 1%nat
  /\ encryptedDataTypes (getPrivacyMetrics Sample.busy_manager) = ["loc"]
  /\ activeConsents (getPrivacyMetrics Sample.busy_manager) = 2%nat
  /\ (averageTrustScore (getPrivacyMetrics Sample.busy_manager) == 8 # 10)%Q.
Proof. vm_compute. repeat split; reflexivity. Qed.

(** *** Counting consents and policies *)

Lemma fold_sizes (l : list (gset string)) (count : nat) :
  fold_left (fun count consents => (count + size consents)%nat) l count
  = (count + sum_list_with size l)%nat.
Proof.
  revert count. induction l as [|c l IH]; intros count; cbn; [lia|].
  rewrite IH. lia.
Qed.

Definition total (m : gmap string (gset string)) : nat :=
  sum_list_with size (map_to_list m).*2.

Lemma countActiveConsents_total (st : PrivacyManager) :
  countActiveConsents st = total (consentRegistry st).
Proof. unfold countActiveConsents. now rewrite fold_sizes. Qed.

Lemma total_delete (m : gmap string (gset string)) (k : string) :
  total m = (size (default ∅ (m !! k)) + total (delete k m))%nat.
Proof.
  unfold total. destruct (m !! k) as [c|] eqn:E; cbn.
  - now rewrite <- (map_to_list_delete m k c E).
  - rewrite delete_id by exact E. rewrite size_empty. lia.
Qed.

Lemma total_insert (m : gmap string (gset string)) (k : string) (c : gset string) :
  total (<[k := c]> m) = (size c + total (delete k m))%nat.
Proof.
  rewrite (total_delete (<[k := c]> m) k), lookup_insert_eq, delete_insert_eq.
  reflexivity.
Qed.

(** X11. The number of active consents that [getPrivacyMetrics] reports
    goes up by one when [grantConsent] adds a grantee who is not yet in the
    grantor's set and stays when the grantee is already there; it goes down
    by one when [revokeConsent] removes a member and stays when the grantee
    is not a member. *)
Theorem activeConsents_step (st : PrivacyManager) (grantor grantee dataType : string) :
  let member :=
    bool_decide (grantee ∈ default ∅ (consentRegistry st !! consentKey grantor dataType)) in
  activeConsents (getPrivacyMetrics (snd (grantConsent grantor grantee dataType st)))
  = (activeConsents (getPrivacyMetrics st) + (if member then 0 else 1))%nat
  /\ activeConsents (getPrivacyMetrics (snd (revokeConsent grantor grantee dataType st)))
     = (activeConsents (getPrivacyMetrics st) - (if member then 1 else 0))%nat.
Proof.
  cbv zeta. cbn [getPrivacyMetrics activeConsents].
  rewrite !countActiveConsents_total.
  rewrite PrivacyFacts.grantConsent_run, PrivacyFacts.revokeConsent_run.
  cbn [snd consentRegistry].
  set (key := consentKey grantor dataType).
  rewrite (total_delete (consentRegistry st) key), total_insert.
  split.
  - case_bool_decide as Hin.
    + replace (default ∅ (consentRegistry st !! key) ∪ {[grantee]})
        with (default ∅ (consentRegistry st !! key)) by set_solver.
      lia.
    + rewrite size_union, size_singleton by set_solver. lia.
  - destruct (consentRegistry st !! key) as [c|] eqn:E;
      cbn [default from_option Datatypes.id] in *.
    + replace (alter (fun consents => consents ∖ {[grantee]}) key (consentRegistry st))
        with (<[key := c ∖ {[grantee]}]> (consentRegistry st)).
      2: { apply map_eq. intros k. rewrite lookup_alter, lookup_insert.
           case_decide; [subst k; now rewrite E | reflexivity]. }
      rewrite total_insert.
      case_bool_decide as Hin.
      * rewrite size_difference, size_singleton by set_solver.
        assert (size c <> 0)%nat.
        { intros Hz. apply size_empty_inv in Hz. set_solver. }
        lia.
      * replace (c ∖ {[grantee]}) with c by set_solver. lia.
    + rewrite alter_id' by exact E.
      rewrite (total_delete (consentRegistry st) key), E. cbn.
      rewrite bool_decide_false by set_solver. lia.
Qed.

(** X12. An accepted [setPolicy] makes the data type one of the
    [encryptedDataTypes] of the metrics and raises [policyCount] by one when
    the data type had no policy, leaving it as it was when a policy is
    replaced; the listed data types are exactly those with a policy, each
    listed once, and [policyCount] is their number. *)
Theorem setPolicy_metrics (st : PrivacyManager) (dataType : string) (policy : PrivacyPolicy) :
  Privacy.dataType policy <> "" ->
  0 < retentionPeriod policy ->
  let before := getPrivacyMetrics st in
  let after := getPrivacyMetrics (snd (setPolicy dataType policy st)) in
  dataType ∈ encryptedDataTypes after
  /\ policyCount after
     = (policyCount before
        + match policies st !! dataType with Some _ => 0 | None => 1 end)%nat
  /\ (forall dt, dt ∈ encryptedDataTypes after
                 <-> dt = dataType \/ dt ∈ encryptedDataTypes before)
  /\ (forall dt, dt ∈ encryptedDataTypes before <-> is_Some (policies st !! dt))
  /\ NoDup (encryptedDataTypes after)
  /\ length (encryptedDataTypes after) = policyCount after.
Proof.
  intros Hd Hr. cbv zeta.
  assert (Hkeys : forall (m : gmap string PrivacyPolicy) dt,
            dt ∈ (map_to_list m).*1 <-> is_Some (m !! dt)).
  { intros m dt. rewrite list_elem_of_fmap. split.
    - intros ([k p] & -> & Hin). apply elem_of_map_to_list in Hin. eauto.
    - intros [p Hp]. exists (dt, p). split; [reflexivity|].
      now apply elem_of_map_to_list. }
  unfold setPolicy, validatePolicy, truthy_array, emit, deliver, set_policies. run.
  rewrite orb_false_r.
  apply truthy_string_iff in Hd. rewrite Hd. cbn.
  destruct (Z.leb_spec (retentionPeriod policy) 0) as [|_]; [lia|]. cbn.
  repeat split.
  - apply Hkeys. rewrite lookup_insert_eq. eauto.
  - rewrite map_size_insert. destruct (policies st !! dataType); unfold Datatypes.id; lia.
  - rewrite !Hkeys, lookup_insert. case_decide; [subst; eauto|].
    intros H'. now right.
  - rewrite !Hkeys, lookup_insert. intros [->|H'].
    + rewrite decide_True by reflexivity. eauto.
    + case_decide; eauto.
  - apply Hkeys.
  - apply Hkeys.
  - apply NoDup_fst_map_to_list.
  - now rewrite length_fmap, length_map_to_list.
Qed.

Lemma setPolicy_metrics_witness :
  "loc" ∈ encryptedDataTypes
            (getPrivacyMetrics (snd (setPolicy "loc" Sample.loc_policy Sample.manager))).
Proof.
  pose proof (setPolicy_metrics Sample.manager "loc" Sample.loc_policy) as H.
  cbv zeta in H. refine (proj1 (H _ _)); [discriminate | reflexivity].
Defined.

End PrivacyMore.

(** ** NetworkManager: accepting, disconnecting, dispatching, broadcasting *)

Module NetworkMore.
Import Network.

(** The event a valid message of type [t] is dispatched to. *)
Definition handlerEvent (t : MessageType) (message : Message) : Event :=
  match t with
  | RESOURCE_REQUEST => resourceRequest message
  | RESOURCE_RESPONSE => unknownMessageType message
  | DATA_SHARE => dataShare message
  | PATTERN_UPDATE => patternUpdate message
  | CONSENSUS_REQUEST => consensusRequest message
  | NODE_DISCOVERY => nodeDiscovery message
  end.

Section WithJSON.
Variable JSON_parse : string -> option Message.
Variable JSON_stringify : Message -> option string.

(** *** Inbound messages *)

(** X13. [handleMessage] changes nothing but the event log. Data that
    does not parse, or a message that fails validation (the fault is then
    the error "Invalid message format"), reaches the [catch] block, which
    emits one [error] event carrying the peer id, the fault and the raw
    data; neither a dispatch event nor [messageReceived] is emitted. On a
    manager that has a listener for [error] the event is delivered and the
    handler returns, and with such a listener the handler never throws; on
    a manager that has none, emitting [error] throws, so the handler throws
    and the manager is left as it was. *)
Theorem handleMessage_rejected (st : NetworkManager) (nodeId data : string) (now : Z) :
  (exists evs,
     snd (handleMessage JSON_parse nodeId data now st)
     = with_emitted (emitted st ++ evs) st)
  /\ (errorListeners st <> 0%nat ->
      fst (handleMessage JSON_parse nodeId data now st) = Normal tt)
  /\ (JSON_parse data = None ->
      exists e,
        handleMessage JSON_parse nodeId data now st
        = match errorListeners st with
          | O => (Throw (unhandled (MessageFault nodeId e data)), st)
          | S _ =>
              (Normal tt,
               with_emitted (emitted st ++ [error (MessageFault nodeId e data)]) st)
          end)
  /\ (forall message,
        JSON_parse data = Some message ->
        validateMessage message now = false ->
        let e := mkError "Invalid message format" in
        handleMessage JSON_parse nodeId data now st
        = match errorListeners st with
          | O => (Throw (unhandled (MessageFault nodeId e data)), st)
          | S _ =>
              (Normal tt,
               with_emitted (emitted st ++ [error (MessageFault nodeId e data)]) st)
          end).
Proof.
  assert (Hsame : st = with_emitted (emitted st ++ []) st).
  { rewrite app_nil_r. now destruct st. }
  unfold handleMessage, handleResourceRequest, handleDataShare,
    handlePatternUpdate, handleConsensusRequest, handleNodeDiscovery, emit, deliver.
  run. unfold with_emitted in *. cbn in *.
  destruct (JSON_parse data) as [message|]; cbn.
  2: { destruct (errorListeners st) eqn:Hl; cbn.
       - split; [exists []; exact Hsame|]. split; [congruence|].
         split; [intros _; exists (mkError "Unexpected token in JSON"); reflexivity
               | intros; discriminate].
       - split; [eexists; reflexivity|]. split; [reflexivity|].
         split; [intros _; exists (mkError "Unexpected token in JSON"); reflexivity
               | intros; discriminate]. }
  destruct (validateMessage message now) eqn:Hv; cbn.
  2: { destruct (errorListeners st) eqn:Hl; cbn.
       - split; [exists []; exact Hsame|]. split; [congruence|].
         split; [discriminate|]. intros m [= <-] _. reflexivity.
       - split; [eexists; reflexivity|]. split; [reflexivity|].
         split; [discriminate|]. intros m [= <-] _. reflexivity. }
  split; [|split; [|split; [discriminate | intros m [= <-] Hf; congruence]]].
  - destruct (String.eqb (type message) "RESOURCE_REQUEST");
      [|destruct (String.eqb (type message) "DATA_SHARE");
        [|destruct (String.eqb (type message) "PATTERN_UPDATE");
          [|destruct (String.eqb (type message) "CONSENSUS_REQUEST");
            [|destruct (String.eqb (type message) "NODE_DISCOVERY")]]]];
      cbn; eexists; rewrite <- app_assoc; reflexivity.
  - intros _.
    destruct (String.eqb (type message) "RESOURCE_REQUEST");
      [|destruct (String.eqb (type message) "DATA_SHARE");
        [|destruct (String.eqb (type message) "PATTERN_UPDATE");
          [|destruct (String.eqb (type message) "CONSENSUS_REQUEST");
            [|destruct (String.eqb (type message) "NODE_DISCOVERY")]]]];
      reflexivity.
Qed.

(** X14. A valid message whose type is one of the six members of the enum
    is dispatched to the event of that member's handler, with
    [RESOURCE_RESPONSE], which has no handler, going to
    [unknownMessageType]; a valid message whose type is no member of the
    enum goes to [unknownMessageType] too. [messageReceived] follows in
    both cases. *)
Theorem handleMessage_dispatch (st : NetworkManager) (nodeId data : string) (now : Z)
    (message : Message) :
  JSON_parse data = Some message ->
  validateMessage message now = true ->
  (forall t, type message = MessageType_value t ->
     handleMessage JSON_parse nodeId data now st
     = (Normal tt,
        with_emitted
          (emitted st ++ [handlerEvent t message; messageReceived nodeId message]) st))
  /\ ((forall t, type message <> MessageType_value t) ->
      handleMessage JSON_parse nodeId data now st
      = (Normal tt,
         with_emitted
           (emitted st ++ [unknownMessageType message; messageReceived nodeId message])
           st)).
Proof.
  intros Hparse Hvalid.
  unfold handleMessage, handleResourceRequest, handleDataShare,
    handlePatternUpdate, handleConsensusRequest, handleNodeDiscovery, emit, deliver.
  run. rewrite Hparse. cbn. rewrite Hvalid. cbn. unfold with_emitted. cbn.
  split.
  - intros t Ht. rewrite Ht. destruct t; cbn; rewrite <- app_assoc; reflexivity.
  - intros Hnone.
    pose proof (Hnone RESOURCE_REQUEST) as H1. pose proof (Hnone DATA_SHARE) as H2.
    pose proof (Hnone PATTERN_UPDATE) as H3. pose proof (Hnone CONSENSUS_REQUEST) as H4.
    pose proof (Hnone NODE_DISCOVERY) as H5. cbn in H1, H2, H3, H4, H5.
    apply String.eqb_neq in H1, H2, H3, H4, H5.
    rewrite H1, H2, H3, H4, H5. cbn. rewrite <- app_assoc. reflexivity.
Qed.

(** *** Accepting and disconnecting *)

(** What an accept below the limit does. *)
Lemma handleConnection_run (st : NetworkManager) (nodeId : string) (ws : nat) :
  Z.of_nat (size (connections st)) < maxConnections (config st) ->
  handleConnection nodeId ws st
  = (Normal tt,
     {| server := server st;
        connections := <[nodeId := ws]> (connections st);
        config := config st;
        heartbeatIntervals := <[nodeId := nextTimer st]> (heartbeatIntervals st);
        sockets := sockets st;
        listeners := listeners st ++ [(ws, nodeId)];
        timers := <[nextTimer st := (nodeId, ws)]> (timers st);
        nextTimer := S (nextTimer st);
        emitted := emitted st ++ [nodeConnected nodeId];
        errorListeners := errorListeners st |}).
Proof.
  intros Hroom. unfold handleConnection, setupHeartbeat, ws_on, emit, deliver. run.
  destruct (Z.leb_spec (maxConnections (config st)) (Z.of_nat (size (connections st))));
    [lia | reflexivity].
Qed.

(** What [handleDisconnection] does. *)
Lemma handleDisconnection_run (st : NetworkManager) (nodeId : string) :
  handleDisconnection nodeId st
  = (Normal tt,
     {| server := server st;
        connections := delete nodeId (connections st);
        config := config st;
        heartbeatIntervals := delete nodeId (heartbeatIntervals st);
        sockets := sockets st;
        listeners := listeners st;
        timers := match heartbeatIntervals st !! nodeId with
                  | Some interval => delete interval (timers st)
                  | None => timers st
                  end;
        nextTimer := nextTimer st;
        emitted := emitted st ++ [nodeDisconnected nodeId];
        errorListeners := errorListeners st |}).
Proof.
  unfold handleDisconnection, emit, deliver. run.
  destruct (heartbeatIntervals st !! nodeId) as [interval|] eqn:E; cbn.
  - reflexivity.
  - unfold with_emitted, with_connections. cbn.
    now rewrite (delete_id (heartbeatIntervals st) nodeId E).
Qed.

(** X15. An accept below the limit registers the transport under the peer
    id, starts one new heartbeat timer that closes over that id and that
    transport, registers the transport's handlers, emits [nodeConnected] and
    leaves the transport itself alone; the connection count grows by one
    for a new id and stays for an id already in the table. *)
Theorem handleConnection_accepts (st : NetworkManager) (nodeId : string) (ws : nat) :
  Z.of_nat (size (connections st)) < maxConnections (config st) ->
  let st' := snd (handleConnection nodeId ws st) in
  fst (handleConnection nodeId ws st) = Normal tt
  /\ connections st' !! nodeId = Some ws
  /\ (forall other, other <> nodeId -> connections st' !! other = connections st !! other)
  /\ heartbeatIntervals st' !! nodeId = Some (nextTimer st)
  /\ timers st' !! nextTimer st = Some (nodeId, ws)
  /\ nextTimer st' = S (nextTimer st)
  /\ listeners st' = (listeners st ++ [(ws, nodeId)])%list
  /\ emitted st' = (emitted st ++ [nodeConnected nodeId])%list
  /\ sockets st' = sockets st
  /\ connectedNodes (getNetworkStats st')
     = (connectedNodes (getNetworkStats st)
        + match connections st !! nodeId with Some _ => 0 | None => 1 end)%nat.
Proof.
  intros Hroom. cbv zeta. rewrite (handleConnection_run st nodeId ws Hroom). cbn.
  repeat split.
  - apply lookup_insert_eq.
  - intros other Hne. now rewrite lookup_insert_ne by congruence.
  - apply lookup_insert_eq.
  - apply lookup_insert_eq.
  - rewrite map_size_insert.
    destruct (connections st !! nodeId); unfold Datatypes.id; lia.
Qed.

(** X16. [handleDisconnection] never throws. It removes the peer's entry
    from the table and from the heartbeat registry and clears the timer the
    registry held for it, leaves every other peer's entries alone, and
    emits [nodeDisconnected], also for an id that is not connected, in
    which case nothing but the event log changes. *)
Theorem handleDisconnection_spec (st : NetworkManager) (nodeId : string) :
  let st' := snd (handleDisconnection nodeId st) in
  fst (handleDisconnection nodeId st) = Normal tt
  /\ connections st' !! nodeId = None
  /\ heartbeatIntervals st' !! nodeId = None
  /\ (forall interval,
        heartbeatIntervals st !! nodeId = Some interval -> timers st' !! interval = None)
  /\ (forall other, other <> nodeId ->
        connections st' !! other = connections st !! other
        /\ heartbeatIntervals st' !! other = heartbeatIntervals st !! other)
  /\ emitted st' = (emitted st ++ [nodeDisconnected nodeId])%list
  /\ (connections st !! nodeId = None ->
      heartbeatIntervals st !! nodeId = None ->
      st' = with_emitted (emitted st ++ [nodeDisconnected nodeId]) st).
Proof.
  cbv zeta. rewrite handleDisconnection_run. cbn. repeat split.
  - apply lookup_delete_eq.
  - apply lookup_delete_eq.
  - intros interval ->. apply lookup_delete_eq.
  - now rewrite lookup_delete_ne by congruence.
  - now rewrite lookup_delete_ne by congruence.
  - intros Hc Hh. rewrite Hh, !delete_id by assumption. reflexivity.
Qed.

(** *** The table, the heartbeat registry and the timers agree *)

(** A computation that keeps an invariant of the manager. *)
Definition stable (I : NetworkManager -> Prop) {A} (m : Eff NetworkManager A) : Prop :=
  forall st, I st -> I (snd (m st)).

Section Stable.
Variable I : NetworkManager -> Prop.

Lemma stable_ret {A} (a : A) : stable I (ret a).
Proof. intros st H. exact H. Qed.

Lemma stable_throw {A} (e : Error) : stable I (@throw NetworkManager A e).
Proof. intros st H. exact H. Qed.

Lemma stable_get : stable I (@get NetworkManager).
Proof. intros st H. exact H. Qed.

Lemma stable_lift_option {A} (e : Error) (o : option A) :
  stable I (@lift_option NetworkManager A e o).
Proof. destruct o; [apply stable_ret | apply stable_throw]. Qed.

Lemma stable_modify (f : NetworkManager -> NetworkManager) :
  (forall st, I st -> I (f st)) -> stable I (modify f).
Proof. intros Hf st H. now apply Hf. Qed.

Lemma stable_bind {A B} (m : Eff NetworkManager A) (k : A -> Eff NetworkManager B) :
  stable I m -> (forall a, stable I (k a)) -> stable I (bind m k).
Proof.
  intros Hm Hk st H. unfold bind. specialize (Hm st H).
  destruct (m st) as [[a|e] st1]; cbn in *; [now apply Hk | exact Hm].
Qed.

Lemma stable_try_catch {A} (body : Eff NetworkManager A)
    (handler : Error -> Eff NetworkManager A) :
  stable I body -> (forall e, stable I (handler e)) -> stable I (try_catch body handler).
Proof.
  intros Hm Hk st H. unfold try_catch. specialize (Hm st H).
  destruct (body st) as [[a|e] st1]; cbn in *; [exact Hm | now apply Hk].
Qed.

Lemma stable_forEach {A} (f : A -> Eff NetworkManager unit) (l : list A) :
  (forall x, stable I (f x)) -> stable I (forEach f l).
Proof.
  intros Hf. induction l as [|x l IH]; cbn; [apply stable_ret|].
  apply stable_bind; [apply Hf | intros _; exact IH].
Qed.

End Stable.

Ltac stable_step :=
  match goal with
  | |- stable _ (bind _ _) => apply stable_bind; [|intros ?]
  | |- stable _ (try_catch _ _) => apply stable_try_catch; [|intros ?]
  | |- stable _ (forEach _ _) => apply stable_forEach; intros [? ?]
  | |- stable _ (ret _) => apply stable_ret
  | |- stable _ (throw _) => apply stable_throw
  | |- stable _ get => apply stable_get
  | |- stable _ (lift_option _ _) => apply stable_lift_option
  | |- stable _ (match ?x with _ => _ end) => destruct x
  end.

(** Every peer in the table has an entry in the heartbeat registry and the
    other way round; the registry's entry for a peer names a timer that was
    started, is still running, and closes over that peer and over the
    transport the table holds for it. *)
Definition wired (st : NetworkManager) : Prop :=
  (forall nodeId,
     is_Some (connections st !! nodeId) <-> is_Some (heartbeatIntervals st !! nodeId))
  /\ (forall nodeId interval,
        heartbeatIntervals st !! nodeId = Some interval ->
        (interval < nextTimer st)%nat
        /\ exists ws, timers st !! interval = Some (nodeId, ws)
                      /\ connections st !! nodeId = Some ws).

Lemma wired_frame (st st' : NetworkManager) :
  connections st' = connections st ->
  heartbeatIntervals st' = heartbeatIntervals st ->
  timers st' = timers st ->
  nextTimer st' = nextTimer st ->
  wired st -> wired st'.
Proof. intros Hc Hh Ht Hn. unfold wired. now rewrite Hc, Hh, Ht, Hn. Qed.

Lemma wired_modify (f : NetworkManager -> NetworkManager) :
  (forall st, connections (f st) = connections st) ->
  (forall st, heartbeatIntervals (f st) = heartbeatIntervals st) ->
  (forall st, timers (f st) = timers st) ->
  (forall st, nextTimer (f st) = nextTimer st) ->
  stable wired (modify f).
Proof.
  intros Hc Hh Ht Hn. apply stable_modify. intros st.
  now apply wired_frame.
Qed.

Lemma wired_emit (ev : Event) : stable wired (emit ev).
Proof.
  intros st H. unfold emit.
  destruct ev, (errorListeners st); try exact H;
    exact (wired_modify _ (fun _ => eq_refl) (fun _ => eq_refl)
             (fun _ => eq_refl) (fun _ => eq_refl) st H).
Qed.

Lemma wired_ws_close (ws : nat) (why : option (Z * string)) :
  stable wired (ws_close ws why).
Proof. apply wired_modify; reflexivity. Qed.

Lemma wired_ws_ping (ws : nat) : stable wired (ws_ping ws).
Proof. apply wired_modify; reflexivity. Qed.

Lemma wired_ws_send (ws : nat) (frame : string) : stable wired (ws_send ws frame).
Proof.
  unfold ws_send. apply stable_bind; [apply stable_get|]. intros st.
  destruct (sockets st !! ws) as [s|]; [|apply stable_throw].
  destruct (readyState s), (sendFault s);
    first [apply stable_throw | apply wired_modify; reflexivity].
Qed.

Lemma wired_handleDisconnection (nodeId : string) :
  stable wired (handleDisconnection nodeId).
Proof.
  intros st [Hdom Hlink]. rewrite handleDisconnection_run. cbn. split; cbn.
  - intros n. rewrite !lookup_delete. case_decide; [|apply Hdom].
    split; intros [? ?]; discriminate.
  - intros n t. rewrite lookup_delete. case_decide as Hn; [discriminate|].
    intros Hh. destruct (Hlink n t Hh) as (Hlt & ws & Ht & Hc).
    split; [exact Hlt|]. exists ws. rewrite lookup_delete_ne by exact Hn.
    split; [|exact Hc].
    destruct (heartbeatIntervals st !! nodeId) as [t0|] eqn:E0; [|exact Ht].
    destruct (Hlink nodeId t0 E0) as (_ & ws0 & Ht0 & _).
    rewrite lookup_delete_ne; [exact Ht|].
    intros ->. rewrite Ht0 in Ht. congruence.
Qed.

Lemma wired_handleConnection (nodeId : string) (ws : nat) :
  stable wired (handleConnection nodeId ws).
Proof.
  intros st Hw.
  destruct (Z.le_gt_cases (maxConnections (config st)) (Z.of_nat (size (connections st))))
    as [Hfull|Hroom].
  - rewrite NetworkFacts.handleConnection_full by exact Hfull.
    now apply wired_ws_close.
  - rewrite (handleConnection_run st nodeId ws Hroom). cbn.
    destruct Hw as [Hdom Hlink]. split; cbn.
    + intros n. rewrite !lookup_insert. case_decide; [|apply Hdom].
      split; eauto.
    + intros n t. rewrite lookup_insert. case_decide as Hn.
      * intros [= <-]. subst n. split; [lia|]. exists ws.
        now rewrite !lookup_insert_eq.
      * intros Hh. destruct (Hlink n t Hh) as (Hlt & ws' & Ht & Hc).
        split; [lia|]. exists ws'.
        rewrite lookup_insert_ne by lia.
        now rewrite lookup_insert_ne by exact Hn.
Qed.

Lemma wired_handleMessage (nodeId data : string) (now : Z) :
  stable wired (handleMessage JSON_parse nodeId data now).
Proof.
  unfold handleMessage, handleResourceRequest, handleDataShare,
    handlePatternUpdate, handleConsensusRequest, handleNodeDiscovery.
  repeat first [stable_step | apply wired_emit].
Qed.

Lemma wired_sendMessage (message : Message) :
  stable wired (sendMessage JSON_stringify message).
Proof.
  unfold sendMessage.
  repeat first [stable_step | apply wired_emit | apply wired_ws_send].
Qed.

Lemma wired_broadcast (message : Message) :
  stable wired (broadcast JSON_stringify message).
Proof.
  unfold broadcast.
  repeat first [stable_step | apply wired_emit | apply wired_ws_send].
Qed.

Lemma wired_disconnect : stable wired disconnect.
Proof.
  unfold disconnect.
  repeat first [stable_step | apply wired_ws_close | apply wired_handleDisconnection
               | apply wired_modify; reflexivity].
Qed.

Lemma wired_heartbeat (nodeId : string) (ws : nat) : stable wired (heartbeat nodeId ws).
Proof.
  unfold heartbeat.
  repeat first [stable_step | apply wired_ws_ping | apply wired_handleDisconnection].
Qed.

Lemma wired_dispatch (ws : nat) (handler : string -> Eff NetworkManager unit) :
  (forall nodeId, stable wired (handler nodeId)) -> stable wired (dispatch ws handler).
Proof.
  intros H. unfold dispatch. repeat first [stable_step | apply H].
Qed.

Lemma wired_react (i : Input) : stable wired (react JSON_parse JSON_stringify i).
Proof.
  destruct i; cbn [react].
  - repeat first [stable_step | apply wired_handleConnection].
  - apply wired_emit.
  - apply wired_dispatch. intros. apply wired_handleMessage.
  - apply stable_bind; [apply wired_modify; reflexivity|]. intros _.
    apply wired_dispatch. apply wired_handleDisconnection.
  - apply wired_dispatch. intros. apply wired_emit.
  - repeat first [stable_step | apply wired_heartbeat].
  - apply wired_modify; reflexivity.
  - repeat first [stable_step | apply wired_emit | apply wired_modify; reflexivity].
  - apply stable_bind; [apply wired_sendMessage | intros; apply stable_ret].
  - apply wired_broadcast.
  - apply wired_disconnect.
  - apply wired_modify; reflexivity.
  - apply wired_modify; reflexivity.
Qed.

Lemma reachable_wired (cfg : NetworkConfig) (st : NetworkManager) :
  reachable JSON_parse JSON_stringify cfg st -> wired st.
Proof.
  induction 1 as [|st i _ IH].
  - split; cbn.
    + intros n. rewrite !lookup_empty. reflexivity.
    + intros n t. rewrite lookup_empty. discriminate.
  - now apply wired_react.
Qed.

(** X17. In every state the manager can reach, the peers in the connection
    table are exactly the peers in the heartbeat registry, and the timer
    registered for a peer is running and probes the transport the table
    holds for that peer. *)
Theorem heartbeat_registry_agrees (cfg : NetworkConfig) (st : NetworkManager) :
  reachable JSON_parse JSON_stringify cfg st ->
  (forall nodeId,
     is_Some (connections st !! nodeId) <-> is_Some (heartbeatIntervals st !! nodeId))
  /\ (forall nodeId interval,
        heartbeatIntervals st !! nodeId = Some interval ->
        exists ws, timers st !! interval = Some (nodeId, ws)
                   /\ connections st !! nodeId = Some ws).
Proof.
  intros H. destruct (reachable_wired cfg st H) as [Hdom Hlink].
  split; [exact Hdom|]. intros n t Hh. destruct (Hlink n t Hh) as (_ & Hws). exact Hws.
Qed.

(** X18. When the timer of a connected peer ticks and finds the peer's
    transport open, it probes it and changes nothing else; when it finds
    the transport not open, the peer is removed from the table and from the
    registry, the timer is cleared and [nodeDisconnected] is emitted. *)
Theorem heartbeat_tick (cfg : NetworkConfig) (st : NetworkManager)
    (nodeId : string) (interval : nat) :
  reachable JSON_parse JSON_stringify cfg st ->
  heartbeatIntervals st !! nodeId = Some interval ->
  let st' := snd (react JSON_parse JSON_stringify (TimerTick interval) st) in
  exists ws,
    connections st !! nodeId = Some ws
    /\ (readyStateOf st ws = OPEN -> st' = snd (ws_ping ws st))
    /\ (readyStateOf st ws <> OPEN ->
        connections st' !! nodeId = None
        /\ heartbeatIntervals st' !! nodeId = None
        /\ timers st' !! interval = None
        /\ emitted st' = (emitted st ++ [nodeDisconnected nodeId])%list).
Proof.
  intros Hreach Hh. cbv zeta.
  destruct (reachable_wired cfg st Hreach) as [_ Hlink].
  destruct (Hlink nodeId interval Hh) as (_ & ws & Ht & Hc).
  exists ws. split; [exact Hc|].
  cbn [react]. unfold heartbeat, bind, get.
  cbn -[handleDisconnection ws_ping readyStateOf]. rewrite Ht.
  cbn -[handleDisconnection ws_ping readyStateOf].
  split.
  - intros ->. reflexivity.
  - intros Hclosed.
    destruct (readyStateOf st ws); try congruence;
      cbn -[handleDisconnection]; rewrite handleDisconnection_run; cbn; rewrite Hh;
      repeat split; apply lookup_delete_eq.
Qed.

(** *** Shutting down *)

Lemma bind_apply {A B} (m : Eff NetworkManager A) (k : A -> Eff NetworkManager B)
    (st : NetworkManager) :
  bind m k st
  = match m st with
    | (Normal a, st') => k a st'
    | (Throw e, st') => (Throw e, st')
    end.
Proof. reflexivity. Qed.

Lemma ws_close_readyState (st : NetworkManager) (ws ws' : nat)
    (why : option (Z * string)) :
  (ws' = ws \/ readyStateOf st ws' <> OPEN) ->
  readyStateOf (snd (ws_close ws why st)) ws' <> OPEN.
Proof.
  unfold ws_close, modify, readyStateOf. cbn. rewrite lookup_alter.
  intros H. case_decide as E.
  - subst ws'. destruct (sockets st !! ws) as [s|]; cbn; [|discriminate].
    destruct (readyState s); discriminate.
  - destruct H as [->|H]; [contradiction | exact H].
Qed.

Lemma closeAll_step (st : NetworkManager) (nodeId : string) (ws : nat) :
  (ws_close ws None ;;; handleDisconnection nodeId)%eff st
  = (Normal tt,
     snd (handleDisconnection nodeId (snd (ws_close ws None st)))).
Proof.
  unfold bind, ws_close, modify. cbn -[handleDisconnection].
  now rewrite handleDisconnection_run.
Qed.

Lemma disconnect_loop (l : list (string * nat)) (st : NetworkManager) :
  let r := forEach (fun '(nodeId, connection) =>
                      (ws_close connection None ;;; handleDisconnection nodeId)%eff) l st in
  fst r = Normal tt
  /\ server (snd r) = server st
  /\ (forall k, connections (snd r) !! k
                = if decide (k ∈ l.*1) then None else connections st !! k)
  /\ (forall k, heartbeatIntervals (snd r) !! k
                = if decide (k ∈ l.*1) then None else heartbeatIntervals st !! k)
  /\ emitted (snd r) = (emitted st ++ (nodeDisconnected <$> l.*1))%list
  /\ (forall ws, readyStateOf st ws <> OPEN -> readyStateOf (snd r) ws <> OPEN)
  /\ (forall nodeId ws, (nodeId, ws) ∈ l -> readyStateOf (snd r) ws <> OPEN).
Proof.
  revert st. induction l as [|[n ws] l IH]; intros st; cbv zeta.
  - cbn. repeat split; auto.
    + now rewrite app_nil_r.
    + intros ? ? H. inversion H.
  - set (st1 := snd (handleDisconnection n (snd (ws_close ws None st)))).
    match goal with
    | |- context [forEach ?f ((n, ws) :: l) st] =>
        assert (Heq : forEach f ((n, ws) :: l) st = forEach f l st1)
          by (cbn [forEach]; unfold bind at 1; now rewrite closeAll_step);
        rewrite Heq; clear Heq
    end.
    assert (Hst1 : server st1 = server st
                   /\ connections st1 = delete n (connections st)
                   /\ heartbeatIntervals st1 = delete n (heartbeatIntervals st)
                   /\ emitted st1 = (emitted st ++ [nodeDisconnected n])%list
                   /\ forall ws', readyStateOf st1 ws'
                                  = readyStateOf (snd (ws_close ws None st)) ws').
    { subst st1. rewrite handleDisconnection_run. repeat split. }
    destruct Hst1 as (Hsv & Hc & Hh & He & Hrs).
    specialize (IH st1). cbv zeta in IH.
    destruct IH as (IH1 & IH2 & IH3 & IH4 & IH5 & IH6 & IH7).
    repeat split.
    + exact IH1.
    + now rewrite IH2.
    + intros k. rewrite IH3, Hc. cbn [fmap list_fmap fst].
      destruct (decide (k = n)) as [->|Hne].
      * rewrite lookup_delete_eq, (decide_True (P := n ∈ n :: _)) by set_solver.
        now case_decide.
      * rewrite lookup_delete_ne by congruence.
        repeat case_decide; try reflexivity; set_solver.
    + intros k. rewrite IH4, Hh. cbn [fmap list_fmap fst].
      destruct (decide (k = n)) as [->|Hne].
      * rewrite lookup_delete_eq, (decide_True (P := n ∈ n :: _)) by set_solver.
        now case_decide.
      * rewrite lookup_delete_ne by congruence.
        repeat case_decide; try reflexivity; set_solver.
    + rewrite IH5, He. cbn [fmap list_fmap fst]. now rewrite <- app_assoc.
    + intros ws' H. apply IH6. rewrite Hrs. apply ws_close_readyState. now right.
    + intros n' ws' Hin. apply elem_of_cons in Hin. destruct Hin as [[= -> ->]|Hin].
      * apply IH6. rewrite Hrs. apply ws_close_readyState. now left.
      * now apply (IH7 n').
Qed.

(** X19. [disconnect] never throws. From a state the manager can reach it
    leaves the connection table and the heartbeat registry empty, leaves no
    transport that was in the table open, emits one [nodeDisconnected] for
    every peer that was connected and nothing else, and marks the server as
    closing; [serverClosed] is not emitted by the call itself. *)
Theorem disconnect_spec (cfg : NetworkConfig) (st : NetworkManager) :
  reachable JSON_parse JSON_stringify cfg st ->
  let st' := snd (disconnect st) in
  fst (disconnect st) = Normal tt
  /\ connections st' = ∅
  /\ heartbeatIntervals st' = ∅
  /\ connectedNodes (getNetworkStats st') = 0%nat
  /\ server st' = Closing
  /\ (forall nodeId ws, connections st !! nodeId = Some ws -> readyStateOf st' ws <> OPEN)
  /\ exists evs,
       emitted st' = (emitted st ++ evs)%list
       /\ evs ≡ₚ nodeDisconnected <$> activeConnections (getNetworkStats st).
Proof.
  intros Hreach. cbv zeta.
  destruct (reachable_wired cfg st Hreach) as [Hdom _].
  destruct (disconnect_loop (map_to_list (connections st)) st)
    as (L1 & L2 & L3 & L4 & L5 & L6 & L7).
  cbv zeta in L1, L2, L3, L4, L5, L6, L7.
  match type of L1 with
  | fst (forEach ?f ?l st) = _ =>
      assert (Hrun : disconnect st
                     = (Normal tt, with_server Closing (snd (forEach f l st))))
        by (unfold disconnect; rewrite bind_apply; unfold get at 1; cbv beta iota;
            rewrite bind_apply;
            destruct (forEach f l st) as [[[]|e] s1];
            [reflexivity | discriminate L1]);
      rewrite Hrun; clear Hrun;
      set (st1 := snd (forEach f l st)) in *
  end.
  cbn [fst snd with_server connections heartbeatIntervals server emitted].
  assert (Hkeys : forall k, k ∈ (map_to_list (connections st)).*1
                            <-> is_Some (connections st !! k)).
  { intros k. rewrite list_elem_of_fmap. split.
    - intros ([k' ws] & -> & Hin). apply elem_of_map_to_list in Hin. eauto.
    - intros [ws Hws]. exists (k, ws). split; [reflexivity|].
      now apply elem_of_map_to_list. }
  assert (Hc : connections st1 = ∅).
  { apply map_eq. intros k. rewrite L3, lookup_empty.
    case_decide as Hin; [reflexivity|].
    destruct (connections st !! k) eqn:E; [|reflexivity].
    exfalso. apply Hin, Hkeys. eauto. }
  assert (Hh : heartbeatIntervals st1 = ∅).
  { apply map_eq. intros k. rewrite L4, lookup_empty.
    case_decide as Hin; [reflexivity|].
    destruct (heartbeatIntervals st !! k) eqn:E; [|reflexivity].
    exfalso. apply Hin, Hkeys, Hdom. eauto. }
  repeat split.
  - exact Hc.
  - exact Hh.
  - cbn. now rewrite Hc, map_size_empty.
  - intros n ws Hn. apply (L7 n). now apply elem_of_map_to_list.
  - exists (nodeDisconnected <$> (map_to_list (connections st)).*1).
    split; [exact L5 | reflexivity].
Qed.

(** *** Broadcasting *)

(** From [st] to [st'] nothing happened but frames being handed to open
    transports. *)
Definition delivered (st st' : NetworkManager) : Prop :=
  st' = with_sockets (sockets st') st
  /\ forall ws,
       match sockets st !! ws with
       | Some s =>
           exists s', sockets st' !! ws = Some s'
             /\ readyState s' = readyState s
             /\ sendFault s' = sendFault s
             /\ (readyState s <> OPEN -> s' = s)
             /\ (forall frame, frame ∈ outbox s -> frame ∈ outbox s')
       | None => sockets st' !! ws = None
       end.

Lemma delivered_refl (st : NetworkManager) : delivered st st.
Proof.
  split; [now destruct st|].
  intros ws. destruct (sockets st !! ws) as [s|]; [|reflexivity].
  exists s. auto.
Qed.

Lemma delivered_trans (st1 st2 st3 : NetworkManager) :
  delivered st1 st2 -> delivered st2 st3 -> delivered st1 st3.
Proof.
  intros [E12 H12] [E23 H23]. split.
  - rewrite E23 at 1. rewrite E12. reflexivity.
  - intros ws. specialize (H12 ws). specialize (H23 ws).
    destruct (sockets st1 !! ws) as [s1|].
    + destruct H12 as (s2 & E2 & Hr2 & Hf2 & Hn2 & Ho2). rewrite E2 in H23.
      destruct H23 as (s3 & E3 & Hr3 & Hf3 & Hn3 & Ho3).
      exists s3. repeat split; try congruence; auto.
      intros Hne. rewrite Hn3 by congruence. auto.
    + now rewrite H12 in H23.
Qed.

(** One turn of the loop of [broadcast]. *)
Definition broadcastTo (message : Message) : string * nat -> Eff NetworkManager unit :=
  fun '(nodeId, connection) =>
    (st' <- get ;;
     if ReadyState_eqb (readyStateOf st' connection) OPEN
     then
       frame <- lift_option (mkError "Converting circular structure to JSON")
                  (JSON_stringify (with_recipient message nodeId)) ;;
       ws_send connection frame
     else ret tt)%eff.

Lemma broadcast_unfold (message : Message) (st : NetworkManager) :
  broadcast JSON_stringify message st
  = match forEach (broadcastTo message) (map_to_list (connections st)) st with
    | (Normal _, st') => emit (messageBroadcast message) st'
    | (Throw e, st') => (Throw e, st')
    end.
Proof. reflexivity. Qed.

Lemma broadcastTo_step (message : Message) (nodeId : string) (ws : nat)
    (st : NetworkManager) :
  delivered st (snd (broadcastTo message (nodeId, ws) st))
  /\ match sockets st !! ws with
     | Some s =>
         match readyState s with
         | OPEN =>
             match JSON_stringify (with_recipient message nodeId), sendFault s with
             | Some frame, None =>
                 fst (broadcastTo message (nodeId, ws) st) = Normal tt
                 /\ exists s', sockets (snd (broadcastTo message (nodeId, ws) st)) !! ws
                               = Some s'
                               /\ frame ∈ outbox s'
             | _, _ => exists e, broadcastTo message (nodeId, ws) st = (Throw e, st)
             end
         | _ => broadcastTo message (nodeId, ws) st = (Normal tt, st)
         end
     | None => broadcastTo message (nodeId, ws) st = (Normal tt, st)
     end.
Proof.
  unfold broadcastTo, ws_send, readyStateOf. run.
  destruct (sockets st !! ws) as [s|] eqn:Hs; cbn;
    [|split; [apply delivered_refl | reflexivity]].
  destruct (readyState s) eqn:Hr; cbn;
    try (split; [apply delivered_refl | reflexivity]).
  destruct (JSON_stringify (with_recipient message nodeId)) as [frame|]; cbn;
    [|split; [apply delivered_refl | eauto]].
  rewrite Hs. cbn. rewrite Hr.
  destruct (sendFault s) as [e|] eqn:Hf; cbn;
    [split; [apply delivered_refl | eauto]|].
  split.
  - split; [reflexivity|]. intros ws'. cbn.
    destruct (decide (ws' = ws)) as [->|Hne].
    + rewrite Hs, lookup_insert_eq. eexists. split; [reflexivity|]. cbn.
      repeat split; auto; [congruence|].
      intros frame' Hin. apply elem_of_app. now left.
    + rewrite lookup_insert_ne by congruence.
      destruct (sockets st !! ws') as [s'|]; [|reflexivity]. exists s'. auto.
  - split; [reflexivity|]. rewrite lookup_insert_eq. eexists. split; [reflexivity|].
    cbn. apply elem_of_app. right. now apply list_elem_of_singleton.
Qed.

Lemma broadcast_loop_delivered (message : Message) (l : list (string * nat))
    (st : NetworkManager) :
  delivered st (snd (forEach (broadcastTo message) l st)).
Proof.
  revert st. induction l as [|[n ws] l IH]; intros st; [apply delivered_refl|].
  cbn [forEach]. rewrite bind_apply.
  destruct (broadcastTo_step message n ws st) as [Hd _].
  destruct (broadcastTo message (n, ws) st) as [[[]|e] st1]; cbn [snd] in *;
    [|exact Hd].
  eapply delivered_trans; [exact Hd | apply IH].
Qed.

(** The loop goes through when no open transport on its way is faulty and
    every copy serializes, and then every open transport on its way holds
    its copy. *)
Lemma broadcast_loop_sends (message : Message) (l : list (string * nat))
    (st : NetworkManager) :
  (forall nodeId, is_Some (JSON_stringify (with_recipient message nodeId))) ->
  (forall nodeId ws s,
     (nodeId, ws) ∈ l -> sockets st !! ws = Some s -> readyState s = OPEN ->
     sendFault s = None) ->
  fst (forEach (broadcastTo message) l st) = Normal tt
  /\ forall nodeId ws s,
       (nodeId, ws) ∈ l -> sockets st !! ws = Some s -> readyState s = OPEN ->
       exists s' frame,
         sockets (snd (forEach (broadcastTo message) l st)) !! ws = Some s'
         /\ JSON_stringify (with_recipient message nodeId) = Some frame
         /\ frame ∈ outbox s'.
Proof.
  intros Hser. revert st. induction l as [|[n ws] l IH]; intros st Hok.
  - split; [reflexivity|]. intros ? ? ? H. inversion H.
  - cbn [forEach]. rewrite bind_apply.
    destruct (broadcastTo_step message n ws st) as [Hd Hstep].
    pose proof (broadcast_loop_delivered message l) as Hrest.
    assert (Hhead : fst (broadcastTo message (n, ws) st) = Normal tt
                    /\ forall s, sockets st !! ws = Some s -> readyState s = OPEN ->
                         exists s' frame,
                           sockets (snd (broadcastTo message (n, ws) st)) !! ws = Some s'
                           /\ JSON_stringify (with_recipient message n) = Some frame
                           /\ frame ∈ outbox s').
    { destruct (sockets st !! ws) as [s|] eqn:Hs;
        [|rewrite Hstep; split; [reflexivity | intros ? [=]]].
      destruct (readyState s) eqn:Hr;
        try (rewrite Hstep; split; [reflexivity | intros ? [= <-]; congruence]).
      destruct (Hser n) as [frame Hframe]. rewrite Hframe in Hstep.
      rewrite (Hok n ws s) in Hstep by (auto; apply elem_of_cons; auto).
      destruct Hstep as [Hn (s' & Hs' & Hin)]. split; [exact Hn|].
      intros s0 [= <-] _. eauto. }
    destruct Hhead as [Hn Hsent].
    destruct (broadcastTo message (n, ws) st) as [[[]|e] st1] eqn:E1;
      cbn [fst snd] in *; [|discriminate].
    destruct Hd as [_ Hd].
    assert (Hok1 : forall nodeId ws' s,
              (nodeId, ws') ∈ l -> sockets st1 !! ws' = Some s ->
              readyState s = OPEN -> sendFault s = None).
    { intros n' ws' s1 Hin Hs1 Hr1. specialize (Hd ws').
      destruct (sockets st !! ws') as [s0|] eqn:Hs0; [|congruence].
      destruct Hd as (s1' & Hs1' & Hr & Hf & _).
      assert (s1' = s1) by congruence. subst s1'.
      rewrite Hf. apply (Hok n' ws' s0); [apply elem_of_cons; auto | auto | congruence]. }
    destruct (IH st1 Hok1) as [IHn IHsent]. split; [exact IHn|].
    intros n' ws' s Hin Hs Hr. apply elem_of_cons in Hin.
    destruct Hin as [[= -> ->]|Hin].
    + destruct (Hsent s Hs Hr) as (s1 & frame & Hs1 & Hframe & Hin1).
      destruct (Hrest st1) as [_ Hmono]. specialize (Hmono ws). rewrite Hs1 in Hmono.
      destruct Hmono as (s2 & Hs2 & _ & _ & _ & Hout).
      exists s2, frame. split; [exact Hs2|]. split; [exact Hframe | now apply Hout].
    + specialize (Hd ws'). rewrite Hs in Hd.
      destruct Hd as (s1 & Hs1 & Hr1 & _).
      apply (IHsent n' ws' s1 Hin Hs1). congruence.
Qed.

(** The loop stops with a throw when an open faulty transport is on its
    way. *)
Lemma broadcast_loop_throws (message : Message) (l : list (string * nat))
    (st : NetworkManager) (nodeId : string) (ws : nat) (s : WebSocket) (e0 : Error) :
  (nodeId, ws) ∈ l -> sockets st !! ws = Some s -> readyState s = OPEN ->
  sendFault s = Some e0 ->
  exists e, fst (forEach (broadcastTo message) l st) = Throw e.
Proof.
  revert st s. induction l as [|[n w] l IH]; intros st s Hin Hs Hr Hf;
    [inversion Hin|].
  cbn [forEach]. rewrite bind_apply.
  destruct (broadcastTo_step message n w st) as [[_ Hd] Hstep].
  apply elem_of_cons in Hin. destruct Hin as [[= -> ->]|Hin].
  - rewrite Hs, Hr, Hf in Hstep.
    assert (exists e, broadcastTo message (n, w) st = (Throw e, st)) as [e ->]
      by (destruct (JSON_stringify (with_recipient message n)); exact Hstep).
    eauto.
  - destruct (broadcastTo message (n, w) st) as [[[]|e] st1]; cbn [fst snd] in *;
      [|eauto].
    specialize (Hd ws). rewrite Hs in Hd.
    destruct Hd as (s1 & Hs1 & Hr1 & Hf1 & _).
    apply (IH st1 s1 Hin Hs1); congruence.
Qed.

(** X20. When every copy serializes and no open transport in the table is
    faulty, [broadcast] returns normally, hands every open transport in the
    table the copy addressed to its peer, leaves every transport that is
    not open exactly as it was, leaves the table alone and emits exactly
    one event, [messageBroadcast] with the message as it was given. *)
Theorem broadcast_delivers (st : NetworkManager) (message : Message) :
  (forall nodeId, is_Some (JSON_stringify (with_recipient message nodeId))) ->
  (forall nodeId ws s,
     connections st !! nodeId = Some ws -> sockets st !! ws = Some s ->
     readyState s = OPEN -> sendFault s = None) ->
  let st' := snd (broadcast JSON_stringify message st) in
  fst (broadcast JSON_stringify message st) = Normal tt
  /\ connections st' = connections st
  /\ emitted st' = (emitted st ++ [messageBroadcast message])%list
  /\ (forall nodeId ws s,
        connections st !! nodeId = Some ws -> sockets st !! ws = Some s ->
        readyState s = OPEN ->
        exists s' frame,
          sockets st' !! ws = Some s'
          /\ JSON_stringify (with_recipient message nodeId) = Some frame
          /\ frame ∈ outbox s')
  /\ (forall ws s,
        sockets st !! ws = Some s -> readyState s <> OPEN -> sockets st' !! ws = Some s).
Proof.
  intros Hser Hok. cbv zeta. rewrite broadcast_unfold.
  assert (Hok' : forall nodeId ws s,
            (nodeId, ws) ∈ map_to_list (connections st) ->
            sockets st !! ws = Some s -> readyState s = OPEN -> sendFault s = None).
  { intros n ws s Hin Hs Hr. apply elem_of_map_to_list in Hin.
    exact (Hok n ws s Hin Hs Hr). }
  destruct (broadcast_loop_sends message _ st Hser Hok') as [Hn Hsent].
  destruct (broadcast_loop_delivered message (map_to_list (connections st)) st)
    as [Heq Hmono].
  destruct (forEach (broadcastTo message) (map_to_list (connections st)) st)
    as [[[]|e] st1]; cbn [fst snd] in *; [|discriminate].
  unfold emit, deliver, modify. cbn [fst snd].
  rewrite Heq. cbn. repeat split.
  - intros n ws s Hc. apply Hsent. now apply elem_of_map_to_list.
  - intros ws s Hs Hr. specialize (Hmono ws). rewrite Hs in Hmono.
    destruct Hmono as (s' & Hs' & _ & _ & Hsame & _). rewrite Hs'.
    f_equal. now apply Hsame.
Qed.

(** X21. [broadcast] does not catch what a transport throws: when an open
    transport in the table is faulty, the call throws, emits neither
    [messageBroadcast] nor [error], and leaves the table as it was. *)
Theorem broadcast_throws (st : NetworkManager) (message : Message)
    (nodeId : string) (ws : nat) (s : WebSocket) (e0 : Error) :
  connections st !! nodeId = Some ws ->
  sockets st !! ws = Some s ->
  readyState s = OPEN ->
  sendFault s = Some e0 ->
  let st' := snd (broadcast JSON_stringify message st) in
  (exists e, fst (broadcast JSON_stringify message st) = Throw e)
  /\ emitted st' = emitted st
  /\ connections st' = connections st.
Proof.
  intros Hc Hs Hr Hf. cbv zeta. rewrite broadcast_unfold.
  assert (Hin : (nodeId, ws) ∈ map_to_list (connections st))
    by now apply elem_of_map_to_list.
  destruct (broadcast_loop_throws message _ st nodeId ws s e0 Hin Hs Hr Hf) as [e He].
  destruct (broadcast_loop_delivered message (map_to_list (connections st)) st)
    as [Heq _].
  destruct (forEach (broadcastTo message) (map_to_list (connections st)) st)
    as [[[]|e'] st1]; cbn [fst snd] in *; [discriminate|].
  rewrite Heq. cbn. eauto.
Qed.

(** *** Sending in order *)

(** X22. Two messages sent one after the other to the same peer, over an
    open transport that is not faulty, reach the transport in the order
    they were sent and are announced by [messageSent] in that order. *)
Theorem sendMessage_in_order (st : NetworkManager) (m1 m2 : Message)
    (ws : nat) (s : WebSocket) (f1 f2 : string) :
  recipient m2 = recipient m1 ->
  connections st !! recipient m1 = Some ws ->
  sockets st !! ws = Some s ->
  readyState s = OPEN ->
  sendFault s = None ->
  JSON_stringify m1 = Some f1 ->
  JSON_stringify m2 = Some f2 ->
  let st1 := snd (sendMessage JSON_stringify m1 st) in
  let st2 := snd (sendMessage JSON_stringify m2 st1) in
  fst (sendMessage JSON_stringify m1 st) = Normal true
  /\ fst (sendMessage JSON_stringify m2 st1) = Normal true
  /\ (exists s2, sockets st2 !! ws = Some s2
                 /\ outbox s2 = (outbox s ++ [f1; f2])%list)
  /\ emitted st2 = (emitted st ++ [messageSent m1; messageSent m2])%list.
Proof.
  intros Hrec Hc Hs Hr Hf H1 H2. cbv zeta.
  rewrite (NetworkFacts.sendMessage_open JSON_stringify st m1 ws s Hc Hs Hr), H1, Hf.
  cbn [fst snd].
  erewrite (NetworkFacts.sendMessage_open JSON_stringify _ m2 ws);
    [| rewrite Hrec; exact Hc | cbn; apply lookup_insert_eq | reflexivity].
  rewrite H2. cbn. repeat split.
  rewrite lookup_insert_eq. eexists. split; [reflexivity|]. cbn.
  - now rewrite <- app_assoc.
  - now rewrite <- app_assoc.
Qed.

End WithJSON.

Lemma handleMessage_dispatch_witness :
  handleMessage Sample.parse_message "B" "m1" 1700000000001 (constructor Sample.config)
  = (Normal tt,
     with_emitted
       (emitted (constructor Sample.config)
        ++ [handlerEvent RESOURCE_RESPONSE Sample.message;
            messageReceived "B" Sample.message])
       (constructor Sample.config)).
Proof.
  refine (proj1 (handleMessage_dispatch Sample.parse_message
                   (constructor Sample.config) "B" "m1" 1700000000001
                   Sample.message _ _) RESOURCE_RESPONSE _); reflexivity.
Defined.


Lemma handleMessage_rejected_witness :
  handleMessage Sample.parse_message "B" "m1" 1699999999999 Sample.attended_faulty
  = (Normal tt,
     with_emitted
       (emitted Sample.attended_faulty
        ++ [error (MessageFault "B" (mkError "Invalid message format") "m1")])
       Sample.attended_faulty).
Proof.
  refine (proj2 (proj2 (proj2 (handleMessage_rejected Sample.parse_message
                                 Sample.attended_faulty "B" "m1" 1699999999999)))
            Sample.message _ _); reflexivity.
Defined.

Lemma handleConnection_accepts_witness :
  connections (snd (handleConnection "A" 0 (constructor Sample.config))) !! "A" = Some 0%nat.
Proof.
  pose proof (handleConnection_accepts (constructor Sample.config) "A" 0) as H.
  cbv zeta in H. refine (proj1 (proj2 (H _))). vm_compute. reflexivity.
Defined.

Lemma heartbeat_registry_agrees_witness :
  (forall nodeId,
     is_Some (connections Sample.crowded !! nodeId)
     <-> is_Some (heartbeatIntervals Sample.crowded !! nodeId))
  /\ (forall nodeId interval,
        heartbeatIntervals Sample.crowded !! nodeId = Some interval ->
        exists ws, timers Sample.crowded !! interval = Some (nodeId, ws)
                   /\ connections Sample.crowded !! nodeId = Some ws).
Proof.
  apply (heartbeat_registry_agrees Sample.parse_message Sample.stringify_message
           Sample.config).
  apply NetworkFacts.reachable_run, reachable_constructor.
Defined.

Lemma heartbeat_tick_witness :
  exists ws,
    connections Sample.crowded !! "A" = Some ws
    /\ (readyStateOf Sample.crowded ws = OPEN ->
        snd (react Sample.parse_message Sample.stringify_message (TimerTick 0)
               Sample.crowded)
        = snd (ws_ping ws Sample.crowded))
    /\ (readyStateOf Sample.crowded ws <> OPEN ->
        connections
          (snd (react Sample.parse_message Sample.stringify_message (TimerTick 0)
                  Sample.crowded)) !! "A" = None
        /\ heartbeatIntervals
             (snd (react Sample.parse_message Sample.stringify_message (TimerTick 0)
                     Sample.crowded)) !! "A" = None
        /\ timers
             (snd (react Sample.parse_message Sample.stringify_message (TimerTick 0)
                     Sample.crowded)) !! 0%nat = None
        /\ emitted
             (snd (react Sample.parse_message Sample.stringify_message (TimerTick 0)
                     Sample.crowded))
           = (emitted Sample.crowded ++ [nodeDisconnected "A"])%list).
Proof.
  apply (heartbeat_tick Sample.parse_message Sample.stringify_message Sample.config
           Sample.crowded "A" 0).
  - apply NetworkFacts.reachable_run, reachable_constructor.
  - reflexivity.
Defined.

Lemma disconnect_spec_witness :
  connections (snd (disconnect Sample.crowded)) = ∅.
Proof.
  pose proof (disconnect_spec Sample.parse_message Sample.stringify_message
                Sample.config Sample.crowded) as H.
  cbv zeta in H. refine (proj1 (proj2 (H _))).
  apply NetworkFacts.reachable_run, reachable_constructor.
Defined.

(** The transports of the sample manager, by handle. *)
Lemma crowded_sockets (ws : nat) (s : WebSocket) :
  sockets Sample.crowded !! ws = Some s -> sendFault s = None.
Proof.
  intros Hs. apply elem_of_map_to_list in Hs. vm_compute in Hs.
  repeat (apply elem_of_cons in Hs as [Hs|Hs]; [injection Hs as -> ->; reflexivity|]).
  inversion Hs.
Qed.

Lemma broadcast_delivers_witness :
  fst (broadcast Sample.stringify_message Sample.message Sample.crowded) = Normal tt.
Proof.
  pose proof (broadcast_delivers Sample.stringify_message Sample.crowded Sample.message)
    as H.
  cbv zeta in H. refine (proj1 (H _ _)).
  - intros nodeId. cbn. eauto.
  - intros nodeId ws s _ Hs _. exact (crowded_sockets ws s Hs).
Defined.

Lemma broadcast_throws_witness :
  exists e,
    fst (broadcast Sample.stringify_message Sample.message Sample.crowded_faulty)
    = Throw e.
Proof.
  pose proof (broadcast_throws Sample.stringify_message Sample.crowded_faulty
                Sample.message "B" 1 Sample.faulty_socket (mkError "EPIPE")) as H.
  cbv zeta in H. refine (proj1 (H _ _ _ _)); reflexivity.
Defined.

Lemma sendMessage_in_order_witness :
  fst (sendMessage Sample.stringify_message Sample.message Sample.crowded) = Normal true.
Proof.
  pose proof (sendMessage_in_order Sample.stringify_message Sample.crowded
                Sample.message Sample.message 1 Sample.socket "m1" "m1") as H.
  cbv zeta in H. refine (proj1 (H _ _ _ _ _ _ _)); reflexivity.
Defined.

End NetworkMore.
